(** * mtm: a k-tape Turing machine simulator

    Shallow embedding of [src/mtm/tape.py] and [src/mtm/machine.py].

    - A Python [int] is a [Z]; a Python [str] is a [string]; a character of a
      string is the one-character string holding it.
    - [Dict[int, str]] (the cells of a tape) is a [gmap Z Symbol]; the
      transition table is a [gmap] from [(state, read tuple)] to
      [(new state, write tuple, move tuple)]; tuples are lists.
    - The sets of states and symbols are [gset]s.
    - The methods of [MultiTapeTuringMachine] mutate [self] and may raise:
      they live in a state-and-error monad over the machine record. *)

From stdpp Require Import gmap strings list fin_maps.
From Stdlib Require Import ZArith.

Open Scope Z_scope.

Abbreviation Symbol := string.

(** ** tape.py *)

Module Tape.

(** [class Tape]: [blank], [cells], [head]. *)
Record t : Type := Build {
  blank : Symbol;
  cells : gmap Z Symbol;
  head : Z
}.

(** [for i, ch in enumerate(initial_input): self.cells[i] = ch], started at
    index [i] on the dictionary [c]. *)
Fixpoint enumerate_store (i : Z) (initial_input : string)
    (c : gmap Z Symbol) : gmap Z Symbol :=
  match initial_input with
  | EmptyString => c
  | String ch rest =>
      enumerate_store (i + 1) rest (<[i := String ch EmptyString]> c)
  end.

(** [Tape.__init__(blank, initial_input)] *)
Definition init (blank : Symbol) (initial_input : string) : t :=
  {| blank := blank;
     cells := enumerate_store 0 initial_input ∅;
     head := 0 |}.

(** [Tape.read]: [self.cells.get(self.head, self.blank)] *)
Definition read (tp : t) : Symbol :=
  default (blank tp) (cells tp !! head tp).

(** [Tape.write]:
    [if symbol == self.blank and self.head in self.cells: del ...
     else: self.cells[self.head] = symbol] *)
Definition write (tp : t) (symbol : Symbol) : t :=
  if bool_decide (symbol = blank tp)
     && bool_decide (is_Some (cells tp !! head tp))
  then {| blank := blank tp;
          cells := delete (head tp) (cells tp);
          head := head tp |}
  else {| blank := blank tp;
          cells := <[head tp := symbol]> (cells tp);
          head := head tp |}.

(** [Tape.move]: [self.head += int(direction)] *)
Definition move (tp : t) (direction : Z) : t :=
  {| blank := blank tp; cells := cells tp; head := head tp + direction |}.

(** The sparsity property of the class docstring: only non-blank cells are
    stored. *)
Definition sparse (tp : t) : Prop :=
  ∀ (pos : Z) (sym : Symbol), cells tp !! pos = Some sym → sym ≠ blank tp.

(** A sequence of [write] and [move] calls on one tape. *)
Inductive op : Type :=
| Write (symbol : Symbol)
| Move (direction : Z).

Definition apply_op (tp : t) (o : op) : t :=
  match o with
  | Write symbol => write tp symbol
  | Move direction => move tp direction
  end.

Definition apply_ops (tp : t) (os : list op) : t :=
  foldl apply_op tp os.

(** The character of [s] at index [j], as a one-character string. *)
Definition char_at (s : string) (j : Z) : option Symbol :=
  if bool_decide (0 ≤ j)
  then (λ ch, String ch EmptyString) <$> String.get (Z.to_nat j) s
  else None.

(** What [read] returns with the head on [pos]:
    [self.cells.get(pos, self.blank)]. *)
Definition content (tp : t) (pos : Z) : Symbol :=
  default (blank tp) (cells tp !! pos).

(** Two tapes that [read] cannot tell apart, wherever the head goes: same
    blank, same head, same content at every position (a stored blank and
    an absent entry count as the same). *)
Definition equivalent (tp1 tp2 : t) : Prop :=
  blank tp1 = blank tp2 ∧ head tp1 = head tp2
  ∧ ∀ pos, content tp1 pos = content tp2 pos.

(** [class Direction(IntEnum)] and its [int] value. *)
Inductive Direction : Type :=
| LEFT
| RIGHT
| STAY.

Definition Direction_int (d : Direction) : Z :=
  match d with
  | LEFT => -1
  | RIGHT => 1
  | STAY => 0
  end.

(** The sum of the directions of the [Move]s of a sequence of calls. *)
Fixpoint displacement (os : list op) : Z :=
  match os with
  | [] => 0
  | Write _ :: os' => displacement os'
  | Move direction :: os' => direction + displacement os'
  end.

(** No call of the sequence writes [b]. *)
Definition writes_no (b : Symbol) (os : list op) : Prop :=
  Forall (λ o, match o with Write symbol => symbol ≠ b | Move _ => True end)
    os.

End Tape.

(** ** machine.py *)

(** The exceptions the code can raise. *)
Inductive PyError : Type :=
| ValueError
| IndexError.

(** The four strings ['RUNNING'], ['ACCEPT'], ['REJECT'], ['HALT']. *)
Inductive Status : Type :=
| RUNNING
| ACCEPT
| REJECT
| HALT.

Global Instance Status_eq_dec : EqDecision Status.
Proof. solve_decision. Defined.

(** [min(indices)] and [max(indices)]: Python raises [ValueError] on an
    empty collection. *)
Definition py_min (l : list Z) : PyError + Z :=
  match l with
  | [] => inl ValueError
  | x :: l' => inr (foldl Z.min x l')
  end.

Definition py_max (l : list Z) : PyError + Z :=
  match l with
  | [] => inl ValueError
  | x :: l' => inr (foldl Z.max x l')
  end.

(** One cell of the debug view: [f"[{ch}]"] under the head, [f" {ch} "]
    elsewhere, with [ch = self.cells.get(i, self.blank)]. *)
Definition Tape_str_cell (tp : Tape.t) (i : Z) : string :=
  let ch := default (Tape.blank tp) (Tape.cells tp !! i) in
  if bool_decide (i = Tape.head tp)
  then String.append "[" (String.append ch "]")
  else String.append " " (String.append ch " ").

(** [Tape.__str__] *)
Definition Tape_str (tp : Tape.t) : PyError + string :=
  if bool_decide (Tape.cells tp = ∅)
  then inr (String.append "[" (String.append (Tape.blank tp) "]"))
  else
    let indices := elements (dom (Tape.cells tp) ∪ {[Tape.head tp]}) in
    match py_min indices with
    | inl e => inl e
    | inr min_i =>
        match py_max indices with
        | inl e => inl e
        | inr max_i =>
            inr (String.concat ""
                   (Tape_str_cell tp <$> seqZ min_i (max_i + 1 - min_i)))
        end
    end.

(** [lo..hi] is the least range of positions that holds the head and every
    stored cell. *)
Definition Tape_window (tp : Tape.t) (lo hi : Z) : Prop :=
  lo ≤ Tape.head tp ≤ hi
  ∧ (∀ pos, is_Some (Tape.cells tp !! pos) → lo ≤ pos ≤ hi)
  ∧ (lo = Tape.head tp ∨ is_Some (Tape.cells tp !! lo))
  ∧ (hi = Tape.head tp ∨ is_Some (Tape.cells tp !! hi)).

(** [[str(t) for t in self.tapes]] *)
Fixpoint Tape_strs (ts : list Tape.t) : PyError + list string :=
  match ts with
  | [] => inr []
  | tp :: ts' =>
      match Tape_str tp with
      | inl e => inl e
      | inr v =>
          match Tape_strs ts' with
          | inl e => inl e
          | inr vs => inr (v :: vs)
          end
      end
  end.

Section Machine.

(** [State = Hashable]: equality and hashing only. *)
Context {State : Type} `{Countable State}.

Definition TransitionKey : Type := State * list Symbol.
Definition TransitionValue : Type := State * list Symbol * list Z.

(** The attributes of a [MultiTapeTuringMachine]. *)
Record Machine : Type := BuildMachine {
  states : gset State;
  input_alphabet : gset Symbol;
  tape_alphabet : gset Symbol;
  blank : Symbol;
  transitions : gmap (State * list Symbol) (State * list Symbol * list Z);
  start_state : State;
  accept_states : gset State;
  reject_states : gset State;
  num_tapes : Z;
  tapes : list Tape.t;
  current_state : State;
  step_count : Z
}.

Definition set_tapes (ts : list Tape.t) (m : Machine) : Machine :=
  BuildMachine (states m) (input_alphabet m) (tape_alphabet m) (blank m)
    (transitions m) (start_state m) (accept_states m) (reject_states m)
    (num_tapes m) ts (current_state m) (step_count m).

Definition set_current_state (q : State) (m : Machine) : Machine :=
  BuildMachine (states m) (input_alphabet m) (tape_alphabet m) (blank m)
    (transitions m) (start_state m) (accept_states m) (reject_states m)
    (num_tapes m) (tapes m) q (step_count m).

Definition set_step_count (n : Z) (m : Machine) : Machine :=
  BuildMachine (states m) (input_alphabet m) (tape_alphabet m) (blank m)
    (transitions m) (start_state m) (accept_states m) (reject_states m)
    (num_tapes m) (tapes m) (current_state m) n.

(** *** Methods: state passing with exceptions *)

Definition M (A : Type) : Type := Machine → (PyError + A) * Machine.

Definition ret {A} (a : A) : M A := λ m, (inr a, m).
Definition raise {A} (e : PyError) : M A := λ m, (inl e, m).
Definition bind {A B} (c : M A) (k : A → M B) : M B :=
  λ m, match c m with
       | (inl e, m') => (inl e, m')
       | (inr a, m') => k a m'
       end.
Definition self : M Machine := λ m, (inr m, m).
Definition assign (f : Machine → Machine) : M unit := λ m, (inr tt, f m).

Notation "'do' x <- c ; k" := (bind c (λ x, k))
  (at level 10, x name, c at level 100, k at level 200).
Notation "c ;; k" := (bind c (λ _, k))
  (at level 100, k at level 200, right associativity).

(** [[Tape(blank, initial_inputs[i]) for i in range(num_tapes)]]; indexing
    past the end of the sequence raises [IndexError]. *)
Fixpoint tapes_by_index (blank : Symbol) (initial_inputs : list string)
    (range : list nat) : PyError + list Tape.t :=
  match range with
  | [] => inr []
  | i :: range' =>
      match initial_inputs !! i with
      | None => inl IndexError
      | Some s =>
          match tapes_by_index blank initial_inputs range' with
          | inl e => inl e
          | inr ts => inr (Tape.init blank s :: ts)
          end
      end
  end.

(** [MultiTapeTuringMachine.__init__]: the new object, or the exception. *)
Definition init
    (states : gset State) (input_alphabet tape_alphabet : gset Symbol)
    (blank : Symbol)
    (transitions : gmap (State * list Symbol) (State * list Symbol * list Z))
    (start_state : State) (accept_states : gset State)
    (reject_states : option (gset State)) (num_tapes : Z)
    (initial_inputs : option (list string)) : PyError + Machine :=
  let initial_inputs :=
    match initial_inputs with
    | None => replicate (Z.to_nat num_tapes) EmptyString
    | Some l => l
    end in
  if bool_decide (Z.of_nat (length initial_inputs) ≠ num_tapes)
  then inl ValueError
  else
    match tapes_by_index blank initial_inputs (seq 0 (Z.to_nat num_tapes)) with
    | inl e => inl e
    | inr ts =>
        inr (BuildMachine states input_alphabet tape_alphabet blank
               transitions start_state accept_states
               (default ∅ reject_states) num_tapes ts start_state 0)
    end.

(** [MultiTapeTuringMachine.reset] *)
Definition reset (initial_inputs : option (list string)) : M unit :=
  do m <- self;
  let initial_inputs :=
    match initial_inputs with
    | None => replicate (Z.to_nat (num_tapes m)) EmptyString
    | Some l => l
    end in
  if bool_decide (Z.of_nat (length initial_inputs) ≠ num_tapes m)
  then raise ValueError
  else
    assign (set_tapes (Tape.init (blank m) <$> initial_inputs)) ;;
    do m <- self;
    assign (set_current_state (start_state m)) ;;
    assign (set_step_count 0).

(** [for t, sym in zip(self.tapes, write_symbols): t.write(sym)]: [zip]
    stops at the shorter of the two. *)
Fixpoint write_zip (ts : list Tape.t) (write_symbols : list Symbol)
    : list Tape.t :=
  match ts, write_symbols with
  | tp :: ts', sym :: syms' => Tape.write tp sym :: write_zip ts' syms'
  | _, _ => ts
  end.

(** [for t, mv in zip(self.tapes, moves): t.move(mv)] *)
Fixpoint move_zip (ts : list Tape.t) (moves : list Z) : list Tape.t :=
  match ts, moves with
  | tp :: ts', mv :: moves' => Tape.move tp mv :: move_zip ts' moves'
  | _, _ => ts
  end.

(** [MultiTapeTuringMachine.step] *)
Definition step : M Status :=
  do m <- self;
  let read_symbols := Tape.read <$> tapes m in
  let key := (current_state m, read_symbols) in
  match transitions m !! key with
  | None =>
      if bool_decide (current_state m ∈ accept_states m) then ret ACCEPT
      else if bool_decide (current_state m ∈ reject_states m) then ret REJECT
      else ret HALT
  | Some (new_state, write_symbols, moves) =>
      assign (λ m, set_tapes (write_zip (tapes m) write_symbols) m) ;;
      assign (λ m, set_tapes (move_zip (tapes m) moves) m) ;;
      assign (set_current_state new_state) ;;
      assign (λ m, set_step_count (step_count m + 1) m) ;;
      do m <- self;
      if bool_decide (current_state m ∈ accept_states m) then ret ACCEPT
      else if bool_decide (current_state m ∈ reject_states m) then ret REJECT
      else ret RUNNING
  end.

(** The loop of [run]:
    [while status == "RUNNING" and self.step_count < max_steps:
         status = self.step()]
    with [fuel] bounding the number of times the loop test is evaluated;
    [None] when the fuel runs out first. *)
Fixpoint run_loop (fuel : nat) (max_steps : Z) (status : Status)
    (m : Machine) : option ((PyError + Status) * Machine) :=
  match fuel with
  | O => None
  | S fuel' =>
      if bool_decide (status = RUNNING) && (step_count m <? max_steps)
      then
        match step m with
        | (inl e, m') => Some (inl e, m')
        | (inr status', m') => run_loop fuel' max_steps status' m'
        end
      else Some (inr status, m)
  end.

(** [MultiTapeTuringMachine.run]: the loop test is evaluated at most
    [max_steps - step_count + 1] times (see [run_returns]). *)
Definition run (max_steps : Z) (m : Machine)
    : option ((PyError + Status) * Machine) :=
  run_loop (S (Z.to_nat (max_steps - step_count m))) max_steps RUNNING m.

(** [k] calls of [step] in a row, keeping the machine only. *)
Fixpoint steps (k : nat) (m : Machine) : Machine :=
  match k with
  | O => m
  | S k' => steps k' (step m).2
  end.

(** What a caller sees of a finished [run]: the returned status (or the
    exception) and the step counter. *)
Definition outcome (r : option ((PyError + Status) * Machine))
    : option ((PyError + Status) * Z) :=
  match r with
  | Some (res, m') => Some (res, step_count m')
  | None => None
  end.

(** The status [step] reports after an applied transition into [q]. *)
Definition status_after (m : Machine) (q : State) : Status :=
  if bool_decide (q ∈ accept_states m) then ACCEPT
  else if bool_decide (q ∈ reject_states m) then REJECT
  else RUNNING.

(** The status [step] reports when no transition is defined in [q]. *)
Definition status_stuck (m : Machine) (q : State) : Status :=
  if bool_decide (q ∈ accept_states m) then ACCEPT
  else if bool_decide (q ∈ reject_states m) then REJECT
  else HALT.

(** The sequence [__init__] and [reset] work with: the one given, or one
    empty string per tape. *)
Definition inputs_or_empty (k : Z) (initial_inputs : option (list string))
    : list string :=
  match initial_inputs with
  | None => replicate (Z.to_nat k) EmptyString
  | Some l => l
  end.

(** The key [step] looks up. *)
Definition key_of (m : Machine) : State * list Symbol :=
  (current_state m, Tape.read <$> tapes m).

(** [step] finds a transition, and its new state is neither accepting nor
    rejecting. *)
Definition keeps_running (m : Machine) : bool :=
  match transitions m !! key_of m with
  | Some (new_state, _, _) =>
      bool_decide (new_state ∉ accept_states m)
      && bool_decide (new_state ∉ reject_states m)
  | None => false
  end.

(** Two machines with the same program: they agree on everything [step]
    and [reset] read, and may differ in the informational sets, the tapes,
    the current state and the step counter. *)
Definition same_program (m1 m2 : Machine) : Prop :=
  blank m1 = blank m2 ∧ transitions m1 = transitions m2 ∧
  start_state m1 = start_state m2 ∧ accept_states m1 = accept_states m2 ∧
  reject_states m1 = reject_states m2 ∧ num_tapes m1 = num_tapes m2.

(** Two machines with the same program in the same configuration. *)
Definition same_configuration (m1 m2 : Machine) : Prop :=
  same_program m1 m2 ∧ tapes m1 = tapes m2 ∧
  current_state m1 = current_state m2 ∧ step_count m1 = step_count m2.

(** The dictionary [get_configuration] returns, with its keys ["state"],
    ["tapes"] and ["step"]. *)
Record Configuration : Type := BuildConfiguration {
  cfg_state : State;
  cfg_tapes : list string;
  cfg_step : Z
}.

(** [MultiTapeTuringMachine.get_configuration] *)
Definition get_configuration : M Configuration :=
  do m <- self;
  match Tape_strs (tapes m) with
  | inl e => raise e
  | inr rendered =>
      ret (BuildConfiguration (current_state m) rendered (step_count m))
  end.

(** Every move of every transition is -1, 0 or 1. *)
Definition unit_moves (m : Machine) : Prop :=
  map_Forall (λ _ value, Forall (λ mv, -1 ≤ mv ≤ 1) value.2) (transitions m).

(** Two machines with the same program, current state and step counter,
    whose tapes are pairwise equivalent. *)
Definition same_content (m1 m2 : Machine) : Prop :=
  same_program m1 m2 ∧ Forall2 Tape.equivalent (tapes m1) (tapes m2)
  ∧ current_state m1 = current_state m2 ∧ step_count m1 = step_count m2.

(** The configuration attributes, which [step] and [run] only read. *)
Definition same_attributes (m1 m2 : Machine) : Prop :=
  states m1 = states m2 ∧ input_alphabet m1 = input_alphabet m2 ∧
  tape_alphabet m1 = tape_alphabet m2 ∧ same_program m1 m2.

End Machine.

Arguments Machine State {_ _}.
Arguments Configuration State : clear implicits.

(** *** The machines of the scenarios *)

Local Open Scope string_scope.

(** Scenario 1: one tape, one state [q0] (start and accept), the single
    transition [(q0, ("1",)) -> (q0, ("1",), (1,))]. *)
Definition unary_machine (initial_input : string) : PyError + Machine string :=
  init {["q0"]} {["1"]} {["1"; "_"]} "_"
    {[ ("q0", ["1"]) := ("q0", ["1"], [1]) ]}
    "q0" {["q0"]} None 1 (Some [initial_input]).

(** The machine of scenario 1 on input ["111"], as construction leaves it. *)
Definition unary_fresh : Machine string :=
  BuildMachine {["q0"]} {["1"]} {["1"; "_"]} "_"
    {[ ("q0", ["1"]) := ("q0", ["1"], [1]) ]}
    "q0" {["q0"]} ∅ 1 [Tape.init "_" "111"] "q0" 0.

(** Scenario 3: no transition at all, [q0] neither accepting nor rejecting. *)
Definition halt_machine : Machine string :=
  BuildMachine {["q0"]} ∅ {["_"]} "_" ∅ "q0" ∅ ∅ 1 [Tape.init "_" ""] "q0" 0.

(** Scenario 5: [q0] goes back to itself on blank, for ever. *)
Definition loop_transitions
    : gmap (string * list Symbol) (string * list Symbol * list Z) :=
  {[ ("q0", ["_"]) := ("q0", ["_"], [1]) ]}.

Definition loop_machine : Machine string :=
  BuildMachine {["q0"; "qa"]} ∅ {["_"]} "_" loop_transitions "q0" {["qa"]} ∅ 1
    [Tape.init "_" ""] "q0" 0.

(** A state [qx] that is accepting and rejecting at once, entered from [q0]
    on blank. *)
Definition tie_machine (q : string) : Machine string :=
  BuildMachine {["q0"; "qx"]} ∅ {["_"]} "_"
    {[ ("q0", ["_"]) := ("qx", ["_"], [0]) ]}
    "q0" {["qx"]} {["qx"]} 1 [Tape.init "_" ""] q 0.

(** Three tapes, and a transition whose write tuple has one entry and whose
    move tuple has two. *)
Definition short_machine : Machine string :=
  BuildMachine {["q0"; "q1"]} {["a"]} {["a"; "b"; "_"]} "_"
    {[ ("q0", ["a"; "a"; "a"]) := ("q1", ["b"], [1; -1]) ]}
    "q0" ∅ ∅ 3 [Tape.init "_" "a"; Tape.init "_" "a"; Tape.init "_" "a"] "q0" 0.

(** Two tapes in the middle of a run. *)
Definition used_machine : Machine string :=
  BuildMachine {["q0"]} {["1"]} {["1"; "_"]} "_"
    {[ ("q0", ["1"]) := ("q0", ["1"], [1]) ]}
    "q0" {["q0"]} ∅ 1 [Tape.move (Tape.init "_" "11") 2] "q0" 7.

Local Close Scope string_scope.

(** * Facts about tapes *)

Section TapeFacts.

Lemma char_at_negative s j : j < 0 → Tape.char_at s j = None.
Proof.
  intros Hj. unfold Tape.char_at.
  rewrite bool_decide_eq_false_2; [done | lia].
Qed.

Lemma char_at_head ch rest :
  Tape.char_at (String ch rest) 0 = Some (String ch EmptyString).
Proof. reflexivity. Qed.

Lemma char_at_tail ch rest j :
  0 < j → Tape.char_at (String ch rest) j = Tape.char_at rest (j - 1).
Proof.
  intros Hj. unfold Tape.char_at.
  rewrite !bool_decide_eq_true_2 by lia.
  replace (Z.to_nat j) with (S (Z.to_nat (j - 1))) by lia.
  reflexivity.
Qed.

(** The dictionary [enumerate] leaves behind: one entry per character, and
    the earlier entries elsewhere. *)
Lemma enumerate_store_lookup s : ∀ (i : Z) (c : gmap Z Symbol) (j : Z),
  Tape.enumerate_store i s c !! j =
    match Tape.char_at s (j - i) with
    | Some sym => Some sym
    | None => c !! j
    end.
Proof.
  induction s as [|ch rest IH]; intros i c j; simpl.
  - unfold Tape.char_at. case_bool_decide; [|done].
    by destruct (Z.to_nat (j - i)).
  - rewrite IH.
    destruct (Z.lt_trichotomy j i) as [Hlt|[Heq|Hgt]].
    + rewrite !char_at_negative by lia.
      rewrite lookup_insert_ne by lia. done.
    + subst j. rewrite Z.sub_diag, char_at_head.
      rewrite char_at_negative by lia.
      by rewrite lookup_insert_eq.
    + rewrite (char_at_tail ch rest (j - i)) by lia.
      replace (j - (i + 1)) with (j - i - 1) by lia.
      destruct (Tape.char_at rest (j - i - 1)); [done|].
      rewrite lookup_insert_ne by lia. done.
Qed.

(** A fresh tape holds character [j] of its input at position [j], and
    nothing else. *)
Lemma init_cells blank s j :
  Tape.cells (Tape.init blank s) !! j = Tape.char_at s j.
Proof.
  unfold Tape.init; simpl. rewrite enumerate_store_lookup, Z.sub_0_r.
  by destruct (Tape.char_at s j).
Qed.

Lemma write_blank tp sym : Tape.blank (Tape.write tp sym) = Tape.blank tp.
Proof. unfold Tape.write. by destruct (_ && _). Qed.

Lemma write_head tp sym : Tape.head (Tape.write tp sym) = Tape.head tp.
Proof. unfold Tape.write. by destruct (_ && _). Qed.

(** [write] keeps a sparse tape sparse, except for the blank written on a
    position that has no entry. *)
Lemma write_sparse tp sym :
  Tape.sparse tp →
  sym ≠ Tape.blank tp ∨ is_Some (Tape.cells tp !! Tape.head tp) →
  Tape.sparse (Tape.write tp sym).
Proof.
  intros Hsp Hok pos s. unfold Tape.write.
  destruct (bool_decide (sym = Tape.blank tp)
            && bool_decide (is_Some (Tape.cells tp !! Tape.head tp))) eqn:E;
    simpl.
  - intros Hl. apply lookup_delete_Some in Hl as [_ Hl]. by eapply Hsp.
  - intros Hl. apply lookup_insert_Some in Hl as [[_ <-]|[_ Hl]].
    + apply andb_false_iff in E as [E|E].
      * by apply bool_decide_eq_false in E.
      * apply bool_decide_eq_false in E. by destruct Hok.
    + by eapply Hsp.
Qed.

(** C2 The sparsity invariant fails: on the empty tape with blank ["_"],
    [write("_")] at position 0, which has no entry, stores the blank
    ([cells == {0: "_"}]); and the tape built from the input ["_"] stores it
    from the start. *)
Theorem C2_write_blank_on_absent_cell_is_stored :
  Tape.cells (Tape.apply_ops (Tape.init "_" "") [Tape.Write "_"]) !! 0
    = Some "_"%string
  ∧ ¬ Tape.sparse (Tape.apply_ops (Tape.init "_" "") [Tape.Write "_"])
  ∧ ¬ Tape.sparse (Tape.init "_" "_").
Proof.
  split; [reflexivity|].
  split; intros Hsp; by apply (Hsp 0 "_"%string).
Qed.

End TapeFacts.

(** * Facts about the machine *)

Section MachineFacts.

Context {State : Type} `{Countable State}.

Implicit Types (m : Machine State) (ts : list Tape.t).

(** ** Construction and reset *)

Lemma tapes_by_index_from blank (done_ rest : list string) :
  tapes_by_index blank (done_ ++ rest) (seq (length done_) (length rest))
    = inr (Tape.init blank <$> rest).
Proof.
  revert done_. induction rest as [|s rest IH]; intros done_; simpl.
  - reflexivity.
  - rewrite lookup_app_r by lia. rewrite Nat.sub_diag. simpl.
    specialize (IH (done_ ++ [s])).
    rewrite <- app_assoc, length_app in IH. simpl in IH.
    rewrite Nat.add_1_r in IH. by rewrite IH.
Qed.

(** Indexing [initial_inputs] over [range(len(initial_inputs))] never
    raises, and builds the tapes in order. *)
Lemma tapes_by_index_all blank (initial_inputs : list string) :
  tapes_by_index blank initial_inputs (seq 0 (length initial_inputs))
    = inr (Tape.init blank <$> initial_inputs).
Proof. apply (tapes_by_index_from blank [] initial_inputs). Qed.

Lemma init_length_ok (sts : gset State) ia ta blank tr q0 acc rej k
    (initial_inputs : option (list string)) :
  Z.of_nat (length (inputs_or_empty k initial_inputs)) = k →
  init sts ia ta blank tr q0 acc rej k initial_inputs
    = inr (BuildMachine sts ia ta blank tr q0 acc (default ∅ rej) k
             (Tape.init blank <$> inputs_or_empty k initial_inputs) q0 0).
Proof.
  intros Hlen. unfold init. fold (inputs_or_empty k initial_inputs).
  rewrite bool_decide_eq_false_2 by (intros Hne; by apply Hne).
  replace (Z.to_nat k)
    with (length (inputs_or_empty k initial_inputs)) by lia.
  by rewrite tapes_by_index_all.
Qed.

Lemma init_length_bad (sts : gset State) ia ta blank tr q0 acc rej k
    (initial_inputs : option (list string)) :
  Z.of_nat (length (inputs_or_empty k initial_inputs)) ≠ k →
  init sts ia ta blank tr q0 acc rej k initial_inputs = inl ValueError.
Proof.
  intros Hlen. unfold init. fold (inputs_or_empty k initial_inputs).
  by rewrite bool_decide_eq_true_2.
Qed.

Lemma reset_length_ok m (initial_inputs : option (list string)) :
  Z.of_nat (length (inputs_or_empty (num_tapes m) initial_inputs))
    = num_tapes m →
  reset initial_inputs m
    = (inr tt,
       BuildMachine (states m) (input_alphabet m) (tape_alphabet m)
         (blank m) (transitions m) (start_state m) (accept_states m)
         (reject_states m) (num_tapes m)
         (Tape.init (blank m)
            <$> inputs_or_empty (num_tapes m) initial_inputs)
         (start_state m) 0).
Proof.
  intros Hlen. unfold reset, bind, self, assign, raise. simpl.
  fold (inputs_or_empty (num_tapes m) initial_inputs).
  rewrite bool_decide_eq_false_2 by (intros Hne; by apply Hne).
  reflexivity.
Qed.

Lemma reset_length_bad m (initial_inputs : option (list string)) :
  Z.of_nat (length (inputs_or_empty (num_tapes m) initial_inputs))
    ≠ num_tapes m →
  reset initial_inputs m = (inl ValueError, m).
Proof.
  intros Hlen. unfold reset, bind, self, assign, raise. simpl.
  fold (inputs_or_empty (num_tapes m) initial_inputs).
  by rewrite bool_decide_eq_true_2.
Qed.

(** ** One step *)

Lemma step_stuck m :
  transitions m !! key_of m = None →
  step m = (inr (status_stuck m (current_state m)), m).
Proof.
  unfold key_of. intros Hk.
  unfold step, bind, self, status_stuck. simpl. rewrite Hk.
  by repeat case_bool_decide.
Qed.

Lemma step_applied m new_state write_symbols moves :
  transitions m !! key_of m = Some (new_state, write_symbols, moves) →
  step m =
    (inr (status_after m new_state),
     set_step_count (step_count m + 1)
       (set_current_state new_state
          (set_tapes (move_zip (write_zip (tapes m) write_symbols) moves)
             m))).
Proof.
  unfold key_of. intros Hk.
  unfold step, bind, self, assign, status_after. simpl. rewrite Hk. simpl.
  by repeat case_bool_decide.
Qed.

Lemma write_zip_length ts syms : length (write_zip ts syms) = length ts.
Proof.
  revert syms. induction ts as [|tp ts IH]; intros [|sym syms]; simpl;
    by rewrite ?IH.
Qed.

Lemma move_zip_length ts moves : length (move_zip ts moves) = length ts.
Proof.
  revert moves. induction ts as [|tp ts IH]; intros [|mv moves]; simpl;
    by rewrite ?IH.
Qed.

(** Tape [i] is written with entry [i] of the write tuple when there is
    one, and is left alone otherwise. *)
Lemma write_zip_lookup ts (syms : list Symbol) (i : nat) :
  write_zip ts syms !! i =
    (λ tp, match syms !! i with
           | Some sym => Tape.write tp sym
           | None => tp
           end) <$> ts !! i.
Proof.
  revert syms i. induction ts as [|tp ts IH]; intros [|sym syms] [|i];
    simpl; try done; try apply IH.
  by destruct (ts !! i).
Qed.

Lemma move_zip_lookup ts (moves : list Z) (i : nat) :
  move_zip ts moves !! i =
    (λ tp, match moves !! i with
           | Some mv => Tape.move tp mv
           | None => tp
           end) <$> ts !! i.
Proof.
  revert moves i. induction ts as [|tp ts IH]; intros [|mv moves] [|i];
    simpl; try done; try apply IH.
  by destruct (ts !! i).
Qed.

(** [step] never raises. *)
Lemma step_returns m : ∃ status m', step m = (inr status, m').
Proof.
  destruct (transitions m !! key_of m) as [[[q syms] moves]|] eqn:Hk.
  - rewrite (step_applied _ _ _ _ Hk). eauto.
  - rewrite (step_stuck _ Hk). eauto.
Qed.

(** [step] answers [RUNNING] only after an applied transition. *)
Lemma step_running_count m m' :
  step m = (inr RUNNING, m') → step_count m' = step_count m + 1.
Proof.
  destruct (transitions m !! key_of m) as [[[q syms] moves]|] eqn:Hk.
  - rewrite (step_applied _ _ _ _ Hk). by intros [= _ <-].
  - rewrite (step_stuck _ Hk). unfold status_stuck.
    by repeat case_bool_decide.
Qed.

Lemma step_keeps_running m :
  keeps_running m = true →
  step m = (inr RUNNING, steps 1 m)
  ∧ step_count (steps 1 m) = step_count m + 1.
Proof.
  unfold keeps_running. simpl.
  destruct (transitions m !! key_of m) as [[[q syms] moves]|] eqn:Hk;
    [|done].
  intros [Ha Hr]%andb_true_iff.
  apply bool_decide_eq_true in Ha, Hr.
  rewrite (step_applied _ _ _ _ Hk). unfold status_after.
  by rewrite !bool_decide_eq_false_2.
Qed.

(** ** The loop of [run] *)

Lemma run_loop_exit fuel max_steps status m :
  status ≠ RUNNING ∨ max_steps ≤ step_count m →
  run_loop (S fuel) max_steps status m = Some (inr status, m).
Proof.
  intros Hexit. simpl.
  destruct (bool_decide (status = RUNNING)
            && (step_count m <? max_steps)) eqn:E; [|done].
  apply andb_true_iff in E as [E1%bool_decide_eq_true E2%Z.ltb_lt].
  destruct Hexit; [done | lia].
Qed.

(** With more fuel than steps left in the budget the loop ends. *)
Lemma run_loop_returns max_steps fuel : ∀ status m,
  (Z.to_nat (max_steps - step_count m) < fuel)%nat →
  ∃ status' m', run_loop fuel max_steps status m = Some (inr status', m').
Proof.
  induction fuel as [|fuel IH]; intros status m Hfuel; [lia|].
  destruct (bool_decide (status = RUNNING)
            && (step_count m <? max_steps)) eqn:E.
  - simpl. rewrite E.
    apply andb_true_iff in E as [_ E2%Z.ltb_lt].
    destruct (step_returns m) as (status' & m' & Hstep). rewrite Hstep.
    destruct (decide (status' = RUNNING)) as [->|Hne].
    + apply IH. apply step_running_count in Hstep. lia.
    + destruct fuel as [|fuel]; [lia|].
      rewrite run_loop_exit by (by left). eauto.
  - simpl. rewrite E. eauto.
Qed.

(** [run] returns a status: it never raises and its loop always ends. *)
Lemma run_returns max_steps m :
  ∃ status m', run max_steps m = Some (inr status, m').
Proof. apply run_loop_returns. lia. Qed.

(** As long as every step keeps running, [n] turns of the loop are [n]
    applied transitions. *)
Lemma run_loop_keeps_running max_steps (n : nat) : ∀ fuel m,
  (n < fuel)%nat →
  max_steps = step_count m + Z.of_nat n →
  (∀ j : nat, (j < n)%nat → keeps_running (steps j m) = true) →
  run_loop fuel max_steps RUNNING m = Some (inr RUNNING, steps n m)
  ∧ step_count (steps n m) = max_steps.
Proof.
  induction n as [|n IH]; intros fuel m Hfuel Hmax Hrun.
  - destruct fuel as [|fuel]; [lia|].
    rewrite run_loop_exit by (right; lia). simpl. split; [done | lia].
  - destruct fuel as [|fuel]; [lia|].
    destruct (step_keeps_running m) as [Hstep Hcount].
    { apply (Hrun 0%nat). lia. }
    simpl.
    replace (step_count m <? max_steps) with true
      by (symmetry; apply Z.ltb_lt; lia).
    rewrite Hstep. simpl in Hcount |- *.
    apply IH; [lia | lia |].
    intros j Hj. apply (Hrun (S j)). lia.
Qed.

(** ** The claims *)

(** C3 When [(current_state, read symbols)] is not a key of [transitions],
    [step] does not raise; it returns ACCEPT if the current state is
    accepting, else REJECT if it is rejecting, else HALT; and the machine
    (current state, step counter, every tape) is the one it was. *)
Theorem C3_undefined_transition_halts_without_mutation m :
  transitions m !! (current_state m, Tape.read <$> tapes m) = None →
  step m =
    (inr (if bool_decide (current_state m ∈ accept_states m) then ACCEPT
          else if bool_decide (current_state m ∈ reject_states m) then REJECT
          else HALT),
     m).
Proof. intros Hk. by rewrite (step_stuck m Hk). Qed.

(** C4 On a freshly constructed machine whose every step within the budget
    finds a transition into a state that is neither accepting nor
    rejecting, [run(max_steps=N)] with [N >= 0] returns RUNNING and leaves
    [step_count == N]. *)
Theorem C4_run_exhausts_budget_exactly (sts : gset State) ia ta blank tr q0
    acc rej k initial_inputs (m0 : Machine State) (N : Z) :
  init sts ia ta blank tr q0 acc rej k initial_inputs = inr m0 →
  0 ≤ N →
  (∀ j : nat, Z.of_nat j < N → keeps_running (steps j m0) = true) →
  ∃ m', run N m0 = Some (inr RUNNING, m') ∧ step_count m' = N.
Proof.
  intros Hinit HN Hrun.
  assert (step_count m0 = 0) as Hzero.
  { destruct (decide (Z.of_nat (length (inputs_or_empty k initial_inputs))
                      = k)) as [Hlen|Hlen].
    - rewrite init_length_ok in Hinit by done. by injection Hinit as <-.
    - by rewrite init_length_bad in Hinit. }
  exists (steps (Z.to_nat N) m0). unfold run. rewrite Hzero, Z.sub_0_r.
  apply run_loop_keeps_running; [lia | lia |].
  intros j Hj. apply Hrun. lia.
Qed.

(** C5 For a state [s] that is both accepting and rejecting, [step] returns
    ACCEPT when [s] is the state it checks: the current state when no
    transition is defined, the new state after an applied transition. *)
Theorem C5_accept_checked_before_reject m (s : State) :
  s ∈ accept_states m →
  s ∈ reject_states m →
  (current_state m = s →
   transitions m !! key_of m = None →
   step m = (inr ACCEPT, m))
  ∧ (∀ write_symbols moves,
       transitions m !! key_of m = Some (s, write_symbols, moves) →
       ∃ m', step m = (inr ACCEPT, m') ∧ current_state m' = s).
Proof.
  intros Hacc Hrej. split.
  - intros Hs Hk. rewrite (step_stuck m Hk). unfold status_stuck.
    rewrite Hs. by rewrite bool_decide_eq_true_2.
  - intros syms moves Hk. rewrite (step_applied _ _ _ _ Hk).
    unfold status_after. rewrite bool_decide_eq_true_2 by done. eauto.
Qed.

(** C6 From any machine, [reset(initial_inputs)] with [num_tapes] inputs
    succeeds; afterwards [step_count] is 0, [current_state] is
    [start_state], tape [i] is a fresh tape on input [i] (head 0, character
    [j] in cell [j] and no other cell), and the nine configuration
    attributes are unchanged; it is the machine construction gives. *)
Theorem C6_reset_reinitialises m (initial_inputs : list string) :
  Z.of_nat (length initial_inputs) = num_tapes m →
  ∃ m', reset (Some initial_inputs) m = (inr tt, m')
    ∧ step_count m' = 0
    ∧ current_state m' = start_state m
    ∧ tapes m' = Tape.init (blank m) <$> initial_inputs
    ∧ (∀ (i : nat) (s : string), initial_inputs !! i = Some s →
         ∃ tp, tapes m' !! i = Some tp
           ∧ Tape.head tp = 0 ∧ Tape.blank tp = blank m
           ∧ ∀ j, Tape.cells tp !! j = Tape.char_at s j)
    ∧ (states m' = states m ∧ input_alphabet m' = input_alphabet m
       ∧ tape_alphabet m' = tape_alphabet m ∧ blank m' = blank m
       ∧ transitions m' = transitions m ∧ start_state m' = start_state m
       ∧ accept_states m' = accept_states m
       ∧ reject_states m' = reject_states m ∧ num_tapes m' = num_tapes m)
    ∧ init (states m) (input_alphabet m) (tape_alphabet m) (blank m)
        (transitions m) (start_state m) (accept_states m)
        (Some (reject_states m)) (num_tapes m) (Some initial_inputs)
      = inr m'.
Proof.
  intros Hlen. eexists. split.
  { apply (reset_length_ok m (Some initial_inputs)). exact Hlen. }
  simpl. repeat split.
  - intros i s Hi. exists (Tape.init (blank m) s).
    rewrite list_lookup_fmap, Hi. simpl. repeat split.
    intros j. exact (init_cells (blank m) s j).
  - by rewrite (init_length_ok _ _ _ _ _ _ _ _ _ (Some initial_inputs)).
Qed.

(** C7 With an [initial_inputs] whose length is not [num_tapes], the
    constructor raises ValueError and so does [reset]: neither returns a
    machine with a truncated or padded list of tapes. *)
Theorem C7_length_mismatch_raises (sts : gset State) ia ta blank tr q0 acc
    rej (k : Z) m (initial_inputs : list string) :
  Z.of_nat (length initial_inputs) ≠ k →
  num_tapes m = k →
  init sts ia ta blank tr q0 acc rej k (Some initial_inputs)
    = inl ValueError
  ∧ (reset (Some initial_inputs) m).1 = inl ValueError.
Proof.
  intros Hlen Hk. split.
  - by apply (init_length_bad _ _ _ _ _ _ _ _ _ (Some initial_inputs)).
  - rewrite (reset_length_bad m (Some initial_inputs)); [done|].
    simpl. by rewrite Hk.
Qed.

(** C9 An applied transition whose write or move tuple is shorter (or
    longer) than the list of tapes does not raise: tape [i] is written iff
    the write tuple has an entry [i] and moved iff the move tuple has an
    entry [i], the other tapes keep their cells, respectively their head,
    entries past the last tape are ignored, [current_state] becomes the new
    state and [step_count] grows by 1. *)
Theorem C9_short_tuples_are_paired_positionwise m new_state
    (write_symbols : list Symbol) (moves : list Z) :
  transitions m !! key_of m = Some (new_state, write_symbols, moves) →
  ∃ m', step m = (inr (status_after m new_state), m')
    ∧ current_state m' = new_state
    ∧ step_count m' = step_count m + 1
    ∧ length (tapes m') = length (tapes m)
    ∧ ∀ (i : nat) (tp : Tape.t), tapes m !! i = Some tp →
        ∃ tp', tapes m' !! i = Some tp'
          ∧ Tape.cells tp' =
              match write_symbols !! i with
              | Some sym => Tape.cells (Tape.write tp sym)
              | None => Tape.cells tp
              end
          ∧ Tape.head tp' =
              match moves !! i with
              | Some mv => Tape.head tp + mv
              | None => Tape.head tp
              end
          ∧ Tape.blank tp' = Tape.blank tp.
Proof.
  intros Hk. eexists. split; [apply (step_applied _ _ _ _ Hk)|].
  simpl. repeat split.
  - by rewrite move_zip_length, write_zip_length.
  - intros i tp Hi. rewrite move_zip_lookup, write_zip_lookup, Hi. simpl.
    eexists. split; [reflexivity|].
    destruct (write_symbols !! i) as [sym|], (moves !! i) as [mv|]; simpl;
      rewrite ?write_head, ?write_blank; done.
Qed.

(** C10 A [reset] that raises for a wrong number of inputs leaves the
    machine as it was: same tapes, same current state, same step counter. *)
Theorem C10_failed_reset_changes_nothing m (initial_inputs : list string) :
  Z.of_nat (length initial_inputs) ≠ num_tapes m →
  reset (Some initial_inputs) m = (inl ValueError, m).
Proof. intros Hlen. by apply (reset_length_bad m (Some initial_inputs)). Qed.

(** ** Determinism *)

Lemma same_configuration_key m1 m2 :
  same_configuration m1 m2 → key_of m1 = key_of m2.
Proof. intros (_ & Ht & Hq & _). unfold key_of. by rewrite Ht, Hq. Qed.

(** [step] reads the program and the configuration, nothing else. *)
Lemma step_same_configuration m1 m2 :
  same_configuration m1 m2 →
  (step m1).1 = (step m2).1 ∧ same_configuration (step m1).2 (step m2).2.
Proof.
  intros Hsame. pose proof (same_configuration_key _ _ Hsame) as Hkey.
  destruct Hsame as (Hprog & Ht & Hq & Hn).
  pose proof Hprog as (Hb & Htr & Hs & Ha & Hr & Hk).
  destruct (transitions m1 !! key_of m1) as [[[q syms] moves]|] eqn:Hk1.
  - assert (transitions m2 !! key_of m2 = Some (q, syms, moves)) as Hk2
      by (by rewrite <- Htr, <- Hkey).
    rewrite (step_applied _ _ _ _ Hk1), (step_applied _ _ _ _ Hk2). simpl.
    split.
    + unfold status_after. by rewrite Ha, Hr.
    + repeat split; simpl; congruence.
  - assert (transitions m2 !! key_of m2 = None) as Hk2
      by (by rewrite <- Htr, <- Hkey).
    rewrite (step_stuck _ Hk1), (step_stuck _ Hk2). simpl. split.
    + unfold status_stuck. by rewrite Ha, Hr, Hq.
    + by repeat split.
Qed.

Lemma run_loop_same_configuration max_steps fuel : ∀ status m1 m2,
  same_configuration m1 m2 →
  outcome (run_loop fuel max_steps status m1)
    = outcome (run_loop fuel max_steps status m2).
Proof.
  induction fuel as [|fuel IH]; intros status m1 m2 Hsame; [done|].
  pose proof Hsame as (_ & _ & _ & Hn).
  simpl. rewrite <- Hn.
  destruct (bool_decide (status = RUNNING)
            && (step_count m1 <? max_steps)); simpl.
  - destruct (step_same_configuration _ _ Hsame) as [Hres Hnext].
    destruct (step_returns m1) as (st1 & m1' & Hs1).
    destruct (step_returns m2) as (st2 & m2' & Hs2).
    rewrite Hs1, Hs2 in Hres, Hnext |- *. simpl in Hres, Hnext.
    injection Hres as <-. by apply IH.
  - by rewrite Hn.
Qed.

Lemma run_same_configuration max_steps m1 m2 :
  same_configuration m1 m2 →
  outcome (run max_steps m1) = outcome (run max_steps m2).
Proof.
  intros Hsame. unfold run.
  pose proof Hsame as (_ & _ & _ & ->).
  by apply run_loop_same_configuration.
Qed.

Lemma reset_inv m m' initial_inputs :
  reset initial_inputs m = (inr tt, m') →
  m' = BuildMachine (states m) (input_alphabet m) (tape_alphabet m)
         (blank m) (transitions m) (start_state m) (accept_states m)
         (reject_states m) (num_tapes m)
         (Tape.init (blank m)
            <$> inputs_or_empty (num_tapes m) initial_inputs)
         (start_state m) 0.
Proof.
  destruct (decide
    (Z.of_nat (length (inputs_or_empty (num_tapes m) initial_inputs))
     = num_tapes m)) as [Hlen|Hlen].
  - rewrite reset_length_ok by done. by intros [= <-].
  - by rewrite reset_length_bad.
Qed.

Lemma init_inv (sts : gset State) ia ta blank tr q0 acc rej k
    initial_inputs m0 :
  init sts ia ta blank tr q0 acc rej k initial_inputs = inr m0 →
  m0 = BuildMachine sts ia ta blank tr q0 acc (default ∅ rej) k
         (Tape.init blank <$> inputs_or_empty k initial_inputs) q0 0.
Proof.
  destruct (decide (Z.of_nat (length (inputs_or_empty k initial_inputs))
                    = k)) as [Hlen|Hlen].
  - rewrite init_length_ok by done. by intros [= <-].
  - by rewrite init_length_bad.
Qed.

(** A reset machine is in the configuration of a freshly constructed one
    with the same program and inputs. *)
Lemma reset_like_init (sts : gset State) ia ta blank tr q0 acc rej k
    initial_inputs m0 m m' :
  init sts ia ta blank tr q0 acc rej k initial_inputs = inr m0 →
  same_program m0 m →
  reset initial_inputs m = (inr tt, m') →
  same_configuration m0 m'.
Proof.
  intros ->%init_inv (Hb & Htr & Hs & Ha & Hr & Hk) ->%reset_inv.
  simpl in *. subst. by repeat split.
Qed.

(** C8 Execution is deterministic: a freshly constructed machine and any
    two machines with the same program (whatever their history), reset
    with the same inputs, finish [run(max_steps)] with the same status and
    the same [step_count]. *)
Theorem C8_run_is_deterministic (sts : gset State) ia ta blank tr q0 acc
    rej k initial_inputs (max_steps : Z) (m0 m1 m1' m2 m2' : Machine State) :
  init sts ia ta blank tr q0 acc rej k initial_inputs = inr m0 →
  same_program m0 m1 →
  same_program m0 m2 →
  reset initial_inputs m1 = (inr tt, m1') →
  reset initial_inputs m2 = (inr tt, m2') →
  ∃ (status : Status) (n : Z),
    outcome (run max_steps m0) = Some (inr status, n)
    ∧ outcome (run max_steps m1') = Some (inr status, n)
    ∧ outcome (run max_steps m2') = Some (inr status, n).
Proof.
  intros Hinit Hp1 Hp2 Hr1 Hr2.
  destruct (run_returns max_steps m0) as (status & m0' & Hrun).
  exists status, (step_count m0').
  rewrite <- (run_same_configuration max_steps m0 m1')
    by (eapply reset_like_init; [exact Hinit | exact Hp1 | exact Hr1]).
  rewrite <- (run_same_configuration max_steps m0 m2')
    by (eapply reset_like_init; [exact Hinit | exact Hp2 | exact Hr2]).
  by rewrite Hrun.
Qed.

End MachineFacts.

(** * The scenarios *)

Section Scenarios.

Local Open Scope string_scope.

Lemma unary_machine_fresh : unary_machine "111" = inr unary_fresh.
Proof. vm_compute. reflexivity. Qed.

(** C1, as stated, fails: the run of the scenario-1 machine on ["111"]
    with [max_steps=10] does not end in ACCEPT with [step_count == 3]. *)
Lemma C1_counterexample :
  ¬ (∃ m, unary_machine "111" = inr m
          ∧ outcome (run 10 m) = Some (inr ACCEPT, 3)).
Proof.
  intros (m & Hm & Hrun). rewrite unary_machine_fresh in Hm.
  injection Hm as <-. vm_compute in Hrun. discriminate Hrun.
Qed.

(** C1 (amended) The scenario-1 machine run on ["111"] with
    [max_steps=10] returns ACCEPT with [step_count == 1]: the first applied
    transition lands in [q0], which is accepting, and [step] reports
    ACCEPT at once, with the head on cell 1. *)
Theorem C1_unary_accepts_after_first_step :
  ∃ m, unary_machine "111" = inr m
       ∧ outcome (run 10 m) = Some (inr ACCEPT, 1)
       ∧ (Tape.head <$> tapes (steps 1 m)) = [1].
Proof.
  exists unary_fresh. split; [apply unary_machine_fresh|].
  split; vm_compute; reflexivity.
Qed.

Lemma C3_witness : step halt_machine = (inr HALT, halt_machine).
Proof.
  rewrite (C3_undefined_transition_halts_without_mutation halt_machine).
  - reflexivity.
  - vm_compute. reflexivity.
Defined.

Lemma C4_witness :
  ∃ m', run 5 loop_machine = Some (inr RUNNING, m') ∧ step_count m' = 5.
Proof.
  apply (C4_run_exhausts_budget_exactly {["q0"; "qa"]} ∅ {["_"]} "_"
           loop_transitions "q0" {["qa"]} None 1 None loop_machine 5).
  - vm_compute. reflexivity.
  - lia.
  - intros j Hj.
    do 5 (destruct j as [|j]; [vm_compute; reflexivity|]). lia.
Defined.

Lemma C5_witness :
  step (tie_machine "qx") = (inr ACCEPT, tie_machine "qx")
  ∧ ∃ m', step (tie_machine "q0") = (inr ACCEPT, m')
          ∧ current_state m' = "qx".
Proof.
  split.
  - apply (C5_accept_checked_before_reject (tie_machine "qx") "qx").
    + simpl. apply elem_of_singleton. reflexivity.
    + simpl. apply elem_of_singleton. reflexivity.
    + reflexivity.
    + vm_compute. reflexivity.
  - apply (C5_accept_checked_before_reject (tie_machine "q0") "qx")
      with (write_symbols := ["_"]) (moves := [0]).
    + simpl. apply elem_of_singleton. reflexivity.
    + simpl. apply elem_of_singleton. reflexivity.
    + vm_compute. reflexivity.
Defined.

Lemma C6_witness :
  ∃ m', reset (Some ["1"]) used_machine = (inr tt, m')
        ∧ step_count m' = 0 ∧ current_state m' = "q0"
        ∧ tapes m' = [Tape.init "_" "1"].
Proof.
  destruct (C6_reset_reinitialises used_machine ["1"])
    as (m' & Hreset & Hcount & Hstate & Htapes & _).
  - reflexivity.
  - exists m'. repeat split; assumption.
Defined.

Lemma C7_witness :
  init {["q0"]} {["1"]} {["1"; "_"]} "_" (transitions used_machine) "q0"
    {["q0"]} None 1 (Some ["1"; "1"]) = inl ValueError
  ∧ (reset (Some ["1"; "1"]) used_machine).1 = inl ValueError.
Proof.
  apply (C7_length_mismatch_raises {["q0"]} {["1"]} {["1"; "_"]} "_"
           (transitions used_machine) "q0" {["q0"]} None 1 used_machine
           ["1"; "1"]).
  - simpl. lia.
  - reflexivity.
Defined.

Lemma C8_witness :
  ∃ (status : Status) (n : Z),
    outcome (run 10 unary_fresh) = Some (inr status, n)
    ∧ outcome (run 10 (reset (Some ["111"]) used_machine).2)
      = Some (inr status, n)
    ∧ outcome (run 10 (reset (Some ["111"]) (steps 2 unary_fresh)).2)
      = Some (inr status, n).
Proof.
  apply (C8_run_is_deterministic {["q0"]} {["1"]} {["1"; "_"]} "_"
           (transitions used_machine) "q0" {["q0"]} None 1 (Some ["111"])
           10 unary_fresh used_machine _ (steps 2 unary_fresh) _).
  - vm_compute. reflexivity.
  - repeat split; reflexivity.
  - repeat split; vm_compute; reflexivity.
  - vm_compute. reflexivity.
  - vm_compute. reflexivity.
Defined.

Lemma C9_witness :
  ∃ m', step short_machine = (inr RUNNING, m')
        ∧ current_state m' = "q1" ∧ step_count m' = 1
        ∧ length (tapes m') = 3%nat.
Proof.
  destruct (C9_short_tuples_are_paired_positionwise short_machine "q1"
              ["b"] [1; -1])
    as (m' & Hstep & Hstate & Hcount & Hlen & _).
  - vm_compute. reflexivity.
  - exists m'. repeat split; assumption.
Defined.

Lemma C10_witness :
  reset (Some []) used_machine = (inl ValueError, used_machine).
Proof.
  apply (C10_failed_reset_changes_nothing used_machine []).
  simpl. lia.
Defined.

End Scenarios.


(** * More about tapes *)

Section TapeExtras.

Implicit Types (tp : Tape.t) (os : list Tape.op).

(** X1 Read/write round trip: after [write(sym)], [read()] returns [sym],
    for every symbol (the blank included) and whether or not the cell under
    the head had an entry. *)
Theorem X1_read_after_write tp (sym : Symbol) :
  Tape.read (Tape.write tp sym) = sym.
Proof.
  unfold Tape.read, Tape.write.
  destruct (bool_decide (sym = Tape.blank tp)
            && bool_decide (is_Some (Tape.cells tp !! Tape.head tp))) eqn:E;
    simpl.
  - apply andb_true_iff in E as [E%bool_decide_eq_true _].
    by rewrite lookup_delete_eq.
  - by rewrite lookup_insert_eq.
Qed.

(** X2 [write] touches the dictionary under the head only: the entry (or
    absence of entry) of every other position is what it was. *)
Theorem X2_write_leaves_other_cells tp (sym : Symbol) (pos : Z) :
  pos ≠ Tape.head tp →
  Tape.cells (Tape.write tp sym) !! pos = Tape.cells tp !! pos.
Proof.
  intros Hpos. unfold Tape.write.
  destruct (_ && _); simpl.
  - by rewrite lookup_delete_ne.
  - by rewrite lookup_insert_ne.
Qed.

Lemma get_past_end (s : string) : ∀ n : nat,
  (String.length s ≤ n)%nat → String.get n s = None.
Proof.
  induction s as [|ch rest IH]; intros n Hn; simpl in *; [done|].
  destruct n as [|n]; [lia|]. apply IH. lia.
Qed.

Lemma read_fresh_tape (blank : Symbol) (s : string) (j : Z) :
  Tape.read (Tape.move (Tape.init blank s) j)
    = default blank (Tape.char_at s j).
Proof.
  change (Tape.read (Tape.move (Tape.init blank s) j))
    with (default blank (Tape.cells (Tape.init blank s) !! j)).
  by rewrite init_cells.
Qed.

(** X3 A fresh tape gives its input back: with the head moved to [j], [read]
    returns character [j] of [initial_input] when there is one, and the
    blank otherwise. *)
Theorem X3_fresh_tape_reads_its_input (blank : Symbol) (s : string) (j : Z) :
  Tape.read (Tape.move (Tape.init blank s) j)
    = default blank (Tape.char_at s j).
Proof. apply read_fresh_tape. Qed.

(** X4 The head is unbounded: moved left of position 0 or right of the last
    character of the input of a fresh tape, [read] returns the blank. *)
Theorem X4_reading_outside_the_input_is_blank (blank : Symbol) (s : string)
    (j : Z) :
  j < 0 ∨ Z.of_nat (String.length s) ≤ j →
  Tape.read (Tape.move (Tape.init blank s) j) = blank.
Proof.
  intros Hout. rewrite read_fresh_tape.
  destruct Hout as [Hneg|Hpast].
  - by rewrite char_at_negative.
  - unfold Tape.char_at. rewrite bool_decide_eq_true_2 by lia.
    rewrite get_past_end by lia. done.
Qed.

Lemma apply_ops_blank os : ∀ tp,
  Tape.blank (Tape.apply_ops tp os) = Tape.blank tp.
Proof.
  induction os as [|[sym|d] os IH]; intros tp; [done| |];
    unfold Tape.apply_ops in *; simpl; rewrite IH; [apply write_blank|done].
Qed.

(** X5 Sparsity is kept when no blank is written: on a tape that stores no
    blank, any sequence of [move] calls and of [write] calls of symbols
    other than the blank leaves no stored blank. *)
Theorem X5_non_blank_writes_keep_sparsity os : ∀ tp,
  Tape.sparse tp →
  Tape.writes_no (Tape.blank tp) os →
  Tape.sparse (Tape.apply_ops tp os).
Proof.
  induction os as [|o os IH]; intros tp Hsp Hos; [done|].
  apply Forall_cons in Hos as [Ho Hos].
  change (Tape.apply_ops tp (o :: os))
    with (Tape.apply_ops (Tape.apply_op tp o) os).
  destruct o as [sym|d]; simpl.
  - apply IH.
    + apply write_sparse; [done | by left].
    + by rewrite write_blank.
  - apply IH; [|done]. intros pos sym. apply (Hsp pos sym).
Qed.

(** X6 A fresh tape stores a blank exactly when its input holds one: it is
    sparse iff no character of [initial_input] is the blank. *)
Theorem X6_fresh_tape_sparse_iff (blank : Symbol) (s : string) :
  Tape.sparse (Tape.init blank s) ↔ ∀ j, Tape.char_at s j ≠ Some blank.
Proof.
  split.
  - intros Hsp j Hj. apply (Hsp j blank); [|done].
    by rewrite init_cells.
  - intros Hno pos sym Hpos. rewrite init_cells in Hpos.
    simpl. intros ->. by apply (Hno pos).
Qed.

(** X7 Only [move] moves the head: after any sequence of [write] and [move]
    calls the head is where it was plus the sum of the directions moved,
    and the blank of the tape is the same. *)
Theorem X7_head_is_displaced_by_moves os : ∀ tp,
  Tape.head (Tape.apply_ops tp os) = Tape.head tp + Tape.displacement os
  ∧ Tape.blank (Tape.apply_ops tp os) = Tape.blank tp.
Proof.
  intros tp. split; [|apply apply_ops_blank]. revert tp.
  induction os as [|[sym|d] os IH]; intros tp.
  - simpl. lia.
  - change (Tape.apply_ops tp (Tape.Write sym :: os))
      with (Tape.apply_ops (Tape.write tp sym) os).
    rewrite IH, write_head. done.
  - change (Tape.apply_ops tp (Tape.Move d :: os))
      with (Tape.apply_ops (Tape.move tp d) os).
    rewrite IH. simpl. lia.
Qed.

(** X8 Moves undo each other: [move(d)] then [move(-d)] gives back the same
    tape, so LEFT then RIGHT (or RIGHT then LEFT) does, and STAY changes
    nothing. *)
Theorem X8_opposite_moves_cancel tp (d : Z) :
  Tape.move (Tape.move tp d) (- d) = tp
  ∧ Tape.move (Tape.move tp (Tape.Direction_int Tape.LEFT))
      (Tape.Direction_int Tape.RIGHT) = tp
  ∧ Tape.move (Tape.move tp (Tape.Direction_int Tape.RIGHT))
      (Tape.Direction_int Tape.LEFT) = tp
  ∧ Tape.move tp (Tape.Direction_int Tape.STAY) = tp.
Proof.
  destruct tp as [b c h]. unfold Tape.move. simpl.
  repeat split; f_equal; lia.
Qed.

(** ** The debug view *)

Lemma foldl_min_spec (l : list Z) : ∀ x : Z,
  (foldl Z.min x l = x ∨ foldl Z.min x l ∈ l)
  ∧ foldl Z.min x l ≤ x
  ∧ ∀ y, y ∈ l → foldl Z.min x l ≤ y.
Proof.
  induction l as [|a l IH]; intros x; simpl.
  - split; [by left|]. split; [lia|]. intros y Hy. by apply elem_of_nil in Hy.
  - destruct (IH (Z.min x a)) as (Hin & Hle & Hall). repeat split.
    + destruct Hin as [Heq|Hin].
      * rewrite Heq. destruct (Z.min_spec x a) as [[_ ->]|[_ ->]];
          [by left | right; left].
      * right. by right.
    + lia.
    + intros y [->|Hy]%elem_of_cons; [lia | by apply Hall].
Qed.

Lemma foldl_max_spec (l : list Z) : ∀ x : Z,
  (foldl Z.max x l = x ∨ foldl Z.max x l ∈ l)
  ∧ x ≤ foldl Z.max x l
  ∧ ∀ y, y ∈ l → y ≤ foldl Z.max x l.
Proof.
  induction l as [|a l IH]; intros x; simpl.
  - split; [by left|]. split; [lia|]. intros y Hy. by apply elem_of_nil in Hy.
  - destruct (IH (Z.max x a)) as (Hin & Hle & Hall). repeat split.
    + destruct Hin as [Heq|Hin].
      * rewrite Heq. destruct (Z.max_spec x a) as [[_ ->]|[_ ->]];
          [right; left | by left].
      * right. by right.
    + lia.
    + intros y [->|Hy]%elem_of_cons; [lia | by apply Hall].
Qed.

(** [min] of a non-empty collection is one of its members, below all. *)
Lemma py_min_spec (l : list Z) (x : Z) :
  x ∈ l → ∃ lo, py_min l = inr lo ∧ lo ∈ l ∧ ∀ y, y ∈ l → lo ≤ y.
Proof.
  destruct l as [|a l]; [by intros ?%elem_of_nil|]. intros _. simpl.
  destruct (foldl_min_spec l a) as (Hin & Hle & Hall).
  eexists. split; [done|]. split.
  - destruct Hin as [->|Hin]; [left | by right].
  - intros y [->|Hy]%elem_of_cons; [done | by apply Hall].
Qed.

Lemma py_max_spec (l : list Z) (x : Z) :
  x ∈ l → ∃ hi, py_max l = inr hi ∧ hi ∈ l ∧ ∀ y, y ∈ l → y ≤ hi.
Proof.
  destruct l as [|a l]; [by intros ?%elem_of_nil|]. intros _. simpl.
  destruct (foldl_max_spec l a) as (Hin & Hle & Hall).
  eexists. split; [done|]. split.
  - destruct Hin as [->|Hin]; [left | by right].
  - intros y [->|Hy]%elem_of_cons; [done | by apply Hall].
Qed.

Lemma indices_spec tp (pos : Z) :
  pos ∈ elements (dom (Tape.cells tp) ∪ {[Tape.head tp]})
  ↔ is_Some (Tape.cells tp !! pos) ∨ pos = Tape.head tp.
Proof.
  rewrite elem_of_elements, elem_of_union, elem_of_dom, elem_of_singleton.
  done.
Qed.

(** The view of a tape with stored cells: the cells of a window, in order. *)
Lemma Tape_str_window tp :
  Tape.cells tp ≠ ∅ →
  ∃ lo hi,
    Tape_str tp
      = inr (String.concat "" (Tape_str_cell tp <$> seqZ lo (hi + 1 - lo)))
    ∧ Tape_window tp lo hi.
Proof.
  intros Hne. unfold Tape_str. rewrite bool_decide_eq_false_2 by done.
  assert (Tape.head tp
            ∈ elements (dom (Tape.cells tp) ∪ {[Tape.head tp]})) as Hhead
    by (apply indices_spec; by right).
  destruct (py_min_spec _ _ Hhead) as (lo & -> & Hlo & Hlo_min).
  destruct (py_max_spec _ _ Hhead) as (hi & -> & Hhi & Hhi_max).
  exists lo, hi. split; [done|].
  apply indices_spec in Hlo, Hhi. repeat split.
  - by apply Hlo_min.
  - by apply Hhi_max.
  - apply Hlo_min, indices_spec. by left.
  - apply Hhi_max, indices_spec. by left.
  - destruct Hlo; [by right | by left].
  - destruct Hhi; [by right | by left].
Qed.

Lemma Tape_str_returns tp : ∃ v, Tape_str tp = inr v.
Proof.
  destruct (decide (Tape.cells tp = ∅)) as [Hempty|Hne].
  - unfold Tape_str. rewrite bool_decide_eq_true_2 by done. eauto.
  - destruct (Tape_str_window tp Hne) as (lo & hi & -> & _). eauto.
Qed.

(** X9 [str(tape)] never raises: [min] and [max] are taken over a set that
    holds the head; and a tape with no stored cell is shown as the blank in
    brackets wherever its head is. *)
Theorem X9_str_never_raises tp :
  (∃ v, Tape_str tp = inr v)
  ∧ (Tape.cells tp = ∅ →
     Tape_str tp = inr (String.append "[" (String.append (Tape.blank tp) "]"))).
Proof.
  split; [apply Tape_str_returns|].
  intros Hempty. unfold Tape_str. by rewrite bool_decide_eq_true_2.
Qed.

(** X10 With stored cells, [str(tape)] shows one cell per position of the
    least range [lo..hi] that holds the head and every stored position, from
    left to right. *)
Theorem X10_str_spans_least_window tp :
  Tape.cells tp ≠ ∅ →
  ∃ lo hi,
    Tape_str tp
      = inr (String.concat "" (Tape_str_cell tp <$> seqZ lo (hi + 1 - lo)))
    ∧ Tape_window tp lo hi.
Proof. apply Tape_str_window. Qed.

Lemma length_append (s1 s2 : string) :
  String.length (String.append s1 s2)
    = (String.length s1 + String.length s2)%nat.
Proof. induction s1 as [|ch s1 IH]; simpl; [done | by rewrite IH]. Qed.

Lemma concat_cons (v : string) (l : list string) :
  String.concat "" (v :: l) = String.append v (String.concat "" l).
Proof.
  destruct l as [|v' l]; [|reflexivity]. simpl.
  induction v as [|ch v IH]; [done|].
  change (String ch v = String ch (String.append v "")). by f_equal.
Qed.

Lemma length_concat_cells (l : list string) (w : nat) :
  Forall (λ v, String.length v = w) l →
  String.length (String.concat "" l) = (w * length l)%nat.
Proof.
  induction 1 as [|v l Hv Hl IH]; [simpl; lia|].
  rewrite concat_cons, length_append, IH, Hv. simpl. lia.
Qed.

(** X11 The view is fixed-width: when the blank and every stored symbol are
    one character long, [str(tape)] is three characters per position of the
    window, [3 * (hi - lo + 1)] in all. *)
Theorem X11_str_is_three_characters_per_cell tp :
  Tape.cells tp ≠ ∅ →
  String.length (Tape.blank tp) = 1%nat →
  (∀ pos sym, Tape.cells tp !! pos = Some sym → String.length sym = 1%nat) →
  ∃ v lo hi,
    Tape_str tp = inr v ∧ Tape_window tp lo hi
    ∧ Z.of_nat (String.length v) = 3 * (hi - lo + 1).
Proof.
  intros Hne Hblank Hcells.
  destruct (Tape_str_window tp Hne) as (lo & hi & Hstr & Hwin).
  eexists _, lo, hi. split; [exact Hstr|]. split; [exact Hwin|].
  rewrite (length_concat_cells _ 3).
  - rewrite length_fmap, length_seqZ.
    destruct Hwin as ([? ?] & _). lia.
  - apply Forall_fmap, Forall_forall. intros i _. simpl.
    unfold Tape_str_cell.
    assert (String.length (default (Tape.blank tp) (Tape.cells tp !! i))
            = 1%nat) as Hlen.
    { destruct (Tape.cells tp !! i) as [sym|] eqn:Hi; simpl;
        [by eapply Hcells | done]. }
    case_bool_decide; rewrite !length_append, Hlen; reflexivity.
Qed.

End TapeExtras.

(** * More about the machine *)

Section MachineExtras.

Context {State : Type} `{Countable State}.

Implicit Types (m : Machine State) (ts : list Tape.t).

Lemma same_attributes_refl m : same_attributes m m.
Proof. by repeat split. Qed.

Lemma same_attributes_trans m1 m2 m3 :
  same_attributes m1 m2 → same_attributes m2 m3 → same_attributes m1 m3.
Proof.
  intros (? & ? & ? & ? & ? & ? & ? & ? & ?) (? & ? & ? & ? & ? & ? & ? & ? & ?).
  repeat split; congruence.
Qed.

Lemma write_zip_blank ts (syms : list Symbol) :
  Tape.blank <$> write_zip ts syms = Tape.blank <$> ts.
Proof.
  revert syms. induction ts as [|tp ts IH]; intros [|sym syms]; simpl;
    try done.
  by rewrite IH, write_blank.
Qed.

Lemma move_zip_blank ts (moves : list Z) :
  Tape.blank <$> move_zip ts moves = Tape.blank <$> ts.
Proof.
  revert moves. induction ts as [|tp ts IH]; intros [|mv moves]; simpl;
    try done.
  by rewrite IH.
Qed.

(** The two ways [step] can go. *)
Lemma step_cases m :
  (transitions m !! key_of m = None
   ∧ step m = (inr (status_stuck m (current_state m)), m))
  ∨ (∃ new_state write_symbols moves,
       transitions m !! key_of m = Some (new_state, write_symbols, moves)
       ∧ step m =
           (inr (status_after m new_state),
            set_step_count (step_count m + 1)
              (set_current_state new_state
                 (set_tapes
                    (move_zip (write_zip (tapes m) write_symbols) moves)
                    m)))).
Proof.
  destruct (transitions m !! key_of m) as [[[q syms] moves]|] eqn:Hk.
  - right. exists q, syms, moves. split; [done|]. by apply step_applied.
  - left. split; [done|]. by apply step_stuck.
Qed.

(** X12 [step] only reads the configuration attributes ([states], the
    alphabets, [blank], [transitions], [start_state], [accept_states],
    [reject_states], [num_tapes]); it keeps the number of tapes and the
    blank of each tape; and it adds 1 to [step_count] exactly when the key
    is in [transitions]. *)
Theorem X12_step_frame m :
  same_attributes m (step m).2
  ∧ length (tapes (step m).2) = length (tapes m)
  ∧ Tape.blank <$> tapes (step m).2 = Tape.blank <$> tapes m
  ∧ step_count (step m).2
      = step_count m
        + match transitions m !! key_of m with Some _ => 1 | None => 0 end.
Proof.
  destruct (step_cases m) as [[Hk ->]|(q & syms & moves & Hk & ->)];
    rewrite Hk; simpl.
  - repeat split. lia.
  - repeat split.
    + by rewrite move_zip_length, write_zip_length.
    + by rewrite move_zip_blank, write_zip_blank.
Qed.

(** ** Invariants of the loop of [run] *)

(** A property of the status and the machine that every turn of the loop
    keeps holds when the loop ends; and the loop ends on a status other than
    RUNNING or with the budget spent. *)
Lemma run_loop_invariant (Q : Status → Machine State → Prop) max_steps :
  (∀ m status' m',
     Q RUNNING m → step_count m < max_steps →
     step m = (inr status', m') → Q status' m') →
  ∀ fuel status m res m',
    Q status m →
    run_loop fuel max_steps status m = Some (res, m') →
    ∃ status', res = inr status' ∧ Q status' m'
      ∧ (status' ≠ RUNNING ∨ max_steps ≤ step_count m').
Proof.
  intros Hstep. induction fuel as [|fuel IH]; intros status m res m' HQ Hrun;
    [done|].
  simpl in Hrun.
  destruct (bool_decide (status = RUNNING)
            && (step_count m <? max_steps)) eqn:E.
  - apply andb_true_iff in E as [->%bool_decide_eq_true E2%Z.ltb_lt].
    destruct (step_returns m) as (st1 & m1 & Hs). rewrite Hs in Hrun.
    apply (IH st1 m1); [|done]. by apply (Hstep m).
  - injection Hrun as <- <-. exists status. split; [done|]. split; [done|].
    apply andb_false_iff in E as [E|E].
    + left. by apply bool_decide_eq_false in E.
    + right. apply Z.ltb_ge in E. lia.
Qed.

Lemma run_invariant (Q : Status → Machine State → Prop) max_steps m :
  (∀ m1 status' m',
     Q RUNNING m1 → step_count m1 < max_steps →
     step m1 = (inr status', m') → Q status' m') →
  Q RUNNING m →
  ∃ status' m', run max_steps m = Some (inr status', m') ∧ Q status' m'
    ∧ (status' ≠ RUNNING ∨ max_steps ≤ step_count m').
Proof.
  intros Hstep HQ.
  destruct (run_returns max_steps m) as (st & m' & Hrun).
  destruct (run_loop_invariant Q max_steps Hstep _ _ _ _ _ HQ Hrun)
    as (st' & [= <-] & HQ' & Hend).
  by exists st, m'.
Qed.

Lemma step_frame_eq m status' m' :
  step m = (inr status', m') →
  same_attributes m m' ∧ length (tapes m') = length (tapes m)
  ∧ step_count m ≤ step_count m' ≤ step_count m + 1.
Proof.
  intros Hs.
  destruct (step_cases m) as [[Hk Heq]|(q & syms & moves & Hk & Heq)];
    rewrite Heq in Hs; injection Hs as <- <-; simpl.
  - repeat split; lia.
  - repeat split; try lia.
    by rewrite move_zip_length, write_zip_length.
Qed.

Lemma run_frame (max_steps : Z) m :
  ∃ status m',
    run max_steps m = Some (inr status, m')
    ∧ same_attributes m m'
    ∧ length (tapes m') = length (tapes m)
    ∧ step_count m ≤ step_count m' ≤ Z.max (step_count m) max_steps.
Proof.
  destruct (run_invariant
    (λ _ m1, same_attributes m m1 ∧ length (tapes m1) = length (tapes m)
             ∧ step_count m ≤ step_count m1
                 ≤ Z.max (step_count m) max_steps) max_steps m)
    as (st & m' & Hrun & HQ & _).
  - intros m1 st' m' (Ha & Hl & Hc) Hlt Hs.
    destruct (step_frame_eq _ _ _ Hs) as (Ha' & Hl' & Hc').
    split; [by eapply same_attributes_trans|]. split; [congruence | lia].
  - split; [apply same_attributes_refl|]. split; [done | lia].
  - by exists st, m'.
Qed.

(** X13 [run] always returns a status; it leaves the configuration
    attributes and the number of tapes as they were; [step_count] never
    decreases and never passes the larger of its old value and
    [max_steps]. *)
Theorem X13_run_frame_and_budget (max_steps : Z) m :
  ∃ status m',
    run max_steps m = Some (inr status, m')
    ∧ same_attributes m m'
    ∧ length (tapes m') = length (tapes m)
    ∧ step_count m ≤ step_count m' ≤ Z.max (step_count m) max_steps.
Proof. apply run_frame. Qed.

(** X14 The number of tapes stays [num_tapes]: a machine just constructed
    or just reset has [len(tapes) == num_tapes], and still has after a
    [run]. *)
Theorem X14_run_keeps_num_tapes (sts : gset State) ia ta blank tr q0 acc rej k
    initial_inputs (m m0 : Machine State) (max_steps : Z) :
  init sts ia ta blank tr q0 acc rej k initial_inputs = inr m0
  ∨ reset initial_inputs m = (inr tt, m0) →
  Z.of_nat (length (tapes m0)) = num_tapes m0
  ∧ ∃ status m',
      run max_steps m0 = Some (inr status, m')
      ∧ Z.of_nat (length (tapes m')) = num_tapes m'.
Proof.
  intros Hfresh.
  assert (Z.of_nat (length (tapes m0)) = num_tapes m0) as Hlen.
  { destruct Hfresh as [Hinit|Hreset].
    - destruct (decide (Z.of_nat (length (inputs_or_empty k initial_inputs))
                        = k)) as [Hl|Hl].
      + rewrite init_length_ok in Hinit by done. injection Hinit as <-.
        simpl. by rewrite length_fmap.
      + by rewrite init_length_bad in Hinit.
    - destruct (decide (Z.of_nat (length (inputs_or_empty (num_tapes m)
                                            initial_inputs))
                        = num_tapes m)) as [Hl|Hl].
      + rewrite reset_length_ok in Hreset by done. injection Hreset as <-.
        simpl. by rewrite length_fmap.
      + by rewrite reset_length_bad in Hreset. }
  split; [done|].
  destruct (run_frame max_steps m0) as (st & m' & Hrun & Ha & Hl & _).
  exists st, m'. split; [done|].
  destruct Ha as (_ & _ & _ & _ & _ & _ & _ & _ & Hk). congruence.
Qed.

(** X15 A spent budget stops [run] before the first step: when
    [max_steps <= step_count] (a budget of 0 on a fresh machine, say),
    [run] returns RUNNING and the machine is untouched, whatever the
    current state, accepting or not. *)
Theorem X15_run_with_spent_budget (max_steps : Z) m :
  max_steps ≤ step_count m →
  run max_steps m = Some (inr RUNNING, m).
Proof. intros Hle. unfold run. apply run_loop_exit. by right. Qed.

(** X16 RUNNING means the budget is spent: when [run] returns RUNNING,
    [step_count] is [max_steps] exactly, or its old value when that was
    already [max_steps] or more. *)
Theorem X16_running_means_budget_spent (max_steps : Z) m m' :
  run max_steps m = Some (inr RUNNING, m') →
  step_count m' = Z.max (step_count m) max_steps.
Proof.
  intros Hrun.
  destruct (run_frame max_steps m) as (st & m1 & Hrun' & _ & _ & Hc).
  destruct (run_invariant (λ _ _, True) max_steps m)
    as (st2 & m2 & Hrun2 & _ & Hend); [done | done |].
  rewrite Hrun in Hrun', Hrun2.
  injection Hrun' as <- <-. injection Hrun2 as <- <-.
  destruct Hend as [?|?]; [done | lia].
Qed.

(** X17 The status [run] returns is sound for the machine it leaves: after
    ACCEPT the current state is accepting; after REJECT it is rejecting and
    not accepting; after HALT no transition is defined for what the heads
    read and the current state is neither. *)
Theorem X17_run_classification_is_sound (max_steps : Z) m status m' :
  run max_steps m = Some (inr status, m') →
  match status with
  | ACCEPT => current_state m' ∈ accept_states m'
  | REJECT =>
      current_state m' ∈ reject_states m'
      ∧ current_state m' ∉ accept_states m'
  | HALT =>
      (transitions m' !! key_of m') = None
      ∧ (current_state m' ∉ accept_states m')
      ∧ (current_state m' ∉ reject_states m')
  | RUNNING => max_steps ≤ step_count m'
  end.
Proof.
  intros Hrun.
  destruct (run_invariant
    (λ st m1, match st with
              | ACCEPT => current_state m1 ∈ accept_states m1
              | REJECT =>
                  current_state m1 ∈ reject_states m1
                  ∧ current_state m1 ∉ accept_states m1
              | HALT =>
                  (transitions m1 !! key_of m1) = None
                  ∧ (current_state m1 ∉ accept_states m1)
                  ∧ (current_state m1 ∉ reject_states m1)
              | RUNNING => True
              end) max_steps m) as (st & m1 & Hrun' & HQ & Hend).
  - intros m1 st' m2 _ _ Hs.
    destruct (step_cases m1) as [[Hk Heq]|(q & syms & moves & Hk & Heq)];
      rewrite Heq in Hs; injection Hs as <- <-.
    + unfold status_stuck. by repeat case_bool_decide.
    + unfold status_after. simpl. by repeat case_bool_decide.
  - done.
  - rewrite Hrun in Hrun'. injection Hrun' as <- <-.
    destruct status; try done. by destruct Hend.
Qed.

(** ** Resuming a run *)

Lemma run_loop_more_fuel max_steps (extra : nat) : ∀ fuel status m res,
  run_loop fuel max_steps status m = Some res →
  run_loop (fuel + extra) max_steps status m = Some res.
Proof.
  induction fuel as [|fuel IH]; intros status m res Hrun; [done|].
  simpl in *.
  destruct (bool_decide (status = RUNNING) && (step_count m <? max_steps));
    [|done].
  destruct (step m) as [[e|st1] m1]; [done|]. by apply IH.
Qed.

Lemma run_loop_fuel_agree max_steps fuel1 fuel2 status m res1 res2 :
  run_loop fuel1 max_steps status m = Some res1 →
  run_loop fuel2 max_steps status m = Some res2 →
  res1 = res2.
Proof.
  intros H1%(run_loop_more_fuel _ fuel2) H2%(run_loop_more_fuel _ fuel1).
  rewrite (Nat.add_comm fuel2 fuel1) in H2. congruence.
Qed.

Lemma run_loop_resume budget1 budget2 m' : ∀ fuel m,
  budget1 ≤ budget2 →
  run_loop fuel budget1 RUNNING m = Some (inr RUNNING, m') →
  ∀ fuel' res,
    run_loop fuel' budget2 RUNNING m' = Some res →
    run_loop (fuel + fuel') budget2 RUNNING m = Some res.
Proof.
  induction fuel as [|fuel IH]; intros m Hle Hrun fuel' res Hres; [done|].
  simpl in Hrun. destruct (step_count m <? budget1) eqn:E.
  - apply Z.ltb_lt in E.
    destruct (step_returns m) as (st1 & m1 & Hs). rewrite Hs in Hrun.
    assert (st1 = RUNNING) as ->.
    { destruct (decide (st1 = RUNNING)) as [|Hne]; [done|].
      destruct fuel as [|fuel]; [done|].
      rewrite run_loop_exit in Hrun by (by left). congruence. }
    simpl. replace (step_count m <? budget2) with true
      by (symmetry; apply Z.ltb_lt; lia).
    rewrite Hs. by apply IH.
  - injection Hrun as <-.
    rewrite Nat.add_comm. by apply run_loop_more_fuel.
Qed.

(** X18 A run cut by its budget can be resumed: if [run(n)] returned
    RUNNING, a later [run(n')] with [n <= n'] on the same object ends as
    [run(n')] alone would have. *)
Theorem X18_run_can_be_resumed (budget1 budget2 : Z) m m' :
  run budget1 m = Some (inr RUNNING, m') →
  budget1 ≤ budget2 →
  run budget2 m' = run budget2 m.
Proof.
  intros Hrun Hle.
  destruct (run_returns budget2 m') as (st2 & m2 & Hres).
  destruct (run_returns budget2 m) as (st3 & m3 & Hdirect).
  rewrite Hres, Hdirect. f_equal.
  pose proof (run_loop_resume _ _ _ _ _ Hle Hrun _ _ Hres) as Hboth.
  exact (run_loop_fuel_agree _ _ _ _ _ _ _ Hboth Hdirect).
Qed.

(** X19 HALT is stable: when [step] returns HALT it has changed nothing,
    the next [step] returns HALT again, and so does [run] with budget
    left. *)
Theorem X19_halt_is_stable (max_steps : Z) m m' :
  step m = (inr HALT, m') →
  step_count m < max_steps →
  m' = m ∧ step m' = (inr HALT, m')
  ∧ run max_steps m' = Some (inr HALT, m').
Proof.
  intros Hs Hlt.
  assert (m' = m) as ->.
  { destruct (step_cases m) as [[Hk Heq]|(q & syms & moves & Hk & Heq)];
      rewrite Heq in Hs.
    - by injection Hs as _ <-.
    - injection Hs as Hst _. unfold status_after in Hst.
      by repeat case_bool_decide. }
  split; [done|]. split; [done|].
  unfold run.
  destruct (Z.to_nat (max_steps - step_count m)) as [|fuel] eqn:Hf; [lia|].
  simpl. replace (step_count m <? max_steps) with true
    by (symmetry; apply Z.ltb_lt; lia).
  rewrite Hs. apply run_loop_exit. by left.
Qed.

(** ** How far the heads go *)

Lemma write_zip_heads ts (syms : list Symbol) :
  Tape.head <$> write_zip ts syms = Tape.head <$> ts.
Proof.
  revert syms. induction ts as [|tp ts IH]; intros [|sym syms]; simpl;
    try done.
  by rewrite IH, write_head.
Qed.

Lemma move_zip_heads_bound (n : Z) ts : ∀ moves : list Z,
  Forall (λ tp, - n ≤ Tape.head tp ≤ n) ts →
  Forall (λ mv, -1 ≤ mv ≤ 1) moves →
  Forall (λ tp, - (n + 1) ≤ Tape.head tp ≤ n + 1) (move_zip ts moves).
Proof.
  induction ts as [|tp ts IH]; intros moves Hts Hmoves; simpl; [done|].
  apply Forall_cons in Hts as [Htp Hts].
  destruct moves as [|mv moves].
  - constructor; [lia|]. eapply Forall_impl; [exact Hts|].
    simpl. intros; lia.
  - apply Forall_cons in Hmoves as [Hmv Hmoves].
    constructor; [simpl; lia | by apply IH].
Qed.

Lemma heads_of_fmap (P : Z → Prop) ts :
  Forall (λ tp, P (Tape.head tp)) ts ↔ Forall P (Tape.head <$> ts).
Proof. by rewrite Forall_fmap. Qed.

(** X20 Heads travel at most one cell per step: on a freshly constructed
    machine whose transitions only move by -1, 0 or 1, after [run] every
    head is within [step_count] cells of position 0. *)
Theorem X20_heads_stay_within_step_count (sts : gset State) ia ta blank tr q0
    acc rej k initial_inputs (m0 : Machine State) (max_steps : Z) :
  init sts ia ta blank tr q0 acc rej k initial_inputs = inr m0 →
  unit_moves m0 →
  ∃ status m',
    run max_steps m0 = Some (inr status, m')
    ∧ Forall (λ tp, - step_count m' ≤ Tape.head tp ≤ step_count m')
        (tapes m').
Proof.
  intros Hinit Hunit. apply init_inv in Hinit.
  destruct (run_invariant
    (λ _ m1, transitions m1 = transitions m0
             ∧ Forall (λ tp, - step_count m1 ≤ Tape.head tp ≤ step_count m1)
                 (tapes m1)) max_steps m0)
    as (st & m' & Hrun & [_ Hheads] & _).
  - intros m1 st' m2 [Htr Hb] _ Hs.
    destruct (step_cases m1) as [[Hk Heq]|(q & syms & moves & Hk & Heq)];
      rewrite Heq in Hs; injection Hs as <- <-; [done|].
    simpl. split; [done|].
    apply move_zip_heads_bound.
    + apply (heads_of_fmap (λ h, - step_count m1 ≤ h ≤ step_count m1)).
      rewrite write_zip_heads.
      by apply (heads_of_fmap (λ h, - step_count m1 ≤ h ≤ step_count m1)).
    + rewrite Htr in Hk. exact (Hunit _ _ Hk).
  - split; [done|]. subst m0. simpl.
    apply Forall_fmap, Forall_forall. intros s _. simpl. lia.
  - by exists st, m'.
Qed.

(** ** Construction without inputs, negative [num_tapes] *)

(** X21 The constructor raises nothing but ValueError, and raises it exactly
    when the inputs (one empty string per tape when none are given) are not
    [num_tapes] many; indexing them never raises IndexError. *)
Theorem X21_init_raises_exactly_on_length_mismatch (sts : gset State) ia ta
    blank tr q0 acc rej (k : Z) (initial_inputs : option (list string)) :
  (init sts ia ta blank tr q0 acc rej k initial_inputs = inl ValueError
   ↔ Z.of_nat (length (inputs_or_empty k initial_inputs)) ≠ k)
  ∧ init sts ia ta blank tr q0 acc rej k initial_inputs ≠ inl IndexError.
Proof.
  destruct (decide (Z.of_nat (length (inputs_or_empty k initial_inputs)) = k))
    as [Hl|Hl].
  - rewrite init_length_ok by done. split; [|done]. split; [done|].
    intros Hne. by destruct Hne.
  - rewrite init_length_bad by done. split; [|done]. by split.
Qed.

Lemma empty_inputs_length (k : Z) :
  0 ≤ k → Z.of_nat (length (inputs_or_empty k None)) = k.
Proof. intros Hk. simpl. rewrite length_replicate. lia. Qed.

(** X22 Without [initial_inputs] and with [num_tapes >= 0], construction
    and [reset()] both succeed and leave [num_tapes] tapes with no stored
    cell and the head on 0, the start state and a step counter of 0. *)
Theorem X22_no_inputs_means_blank_tapes (sts : gset State) ia ta b tr q0
    acc rej (k : Z) (m : Machine State) :
  0 ≤ k →
  num_tapes m = k →
  (∃ m0, init sts ia ta b tr q0 acc rej k None = inr m0
         ∧ tapes m0 = replicate (Z.to_nat k) (Tape.Build b ∅ 0)
         ∧ current_state m0 = q0 ∧ step_count m0 = 0)
  ∧ (∃ m', reset None m = (inr tt, m')
           ∧ tapes m' = replicate (Z.to_nat k) (Tape.Build (blank m) ∅ 0)
           ∧ current_state m' = start_state m ∧ step_count m' = 0).
Proof.
  intros Hk Hm. split.
  - eexists. split.
    + apply init_length_ok. by apply empty_inputs_length.
    + simpl. by rewrite fmap_replicate.
  - eexists. split.
    + apply reset_length_ok. rewrite Hm. by apply empty_inputs_length.
    + simpl. by rewrite fmap_replicate, Hm.
Qed.

(** X23 A negative [num_tapes] cannot be satisfied: construction raises
    ValueError whatever the inputs, given or not. *)
Theorem X23_negative_num_tapes_always_raises (sts : gset State) ia ta blank tr
    q0 acc rej (k : Z) (initial_inputs : option (list string)) :
  k < 0 →
  init sts ia ta blank tr q0 acc rej k initial_inputs = inl ValueError.
Proof. intros Hk. apply init_length_bad. lia. Qed.

(** ** The configuration snapshot *)

Lemma Tape_strs_spec ts :
  ∃ rendered, Tape_strs ts = inr rendered
    ∧ Forall2 (λ tp v, Tape_str tp = inr v) ts rendered.
Proof.
  induction ts as [|tp ts (vs & Hvs & Hall)]; simpl; [by exists []|].
  destruct (Tape_str_returns tp) as (v & Hv).
  rewrite Hv, Hvs. exists (v :: vs). split; [done | by constructor].
Qed.

(** X24 [get_configuration] never raises and changes nothing; it reports the
    current state, the step counter and, in tape order, the debug view of
    each tape. *)
Theorem X24_get_configuration_is_a_pure_snapshot m :
  ∃ rendered,
    get_configuration m
      = (inr (BuildConfiguration (current_state m) rendered
                (step_count m)), m)
    ∧ length rendered = length (tapes m)
    ∧ ∀ (i : nat) (tp : Tape.t), tapes m !! i = Some tp →
        ∃ v, rendered !! i = Some v ∧ Tape_str tp = inr v.
Proof.
  destruct (Tape_strs_spec (tapes m)) as (vs & Hvs & Hall).
  exists vs. unfold get_configuration, bind, self, ret. simpl.
  rewrite Hvs. split; [done|]. split.
  - symmetry. by eapply Forall2_length.
  - intros i tp Hi.
    destruct (Forall2_lookup_l _ _ _ _ _ Hall Hi) as (v & Hv & Htp).
    by exists v.
Qed.

Lemma Tape_strs_blank (b : Symbol) (n : nat) :
  Tape_strs (replicate n (Tape.Build b ∅ 0))
    = inr (replicate n (String.append "[" (String.append b "]"))).
Proof.
  induction n as [|n IH]; [done|].
  change (replicate (S n) (Tape.Build b ∅ 0))
    with (Tape.Build b ∅ 0 :: replicate n (Tape.Build b ∅ 0)).
  cbn [Tape_strs]. rewrite IH.
  unfold Tape_str. by rewrite bool_decide_eq_true_2.
Qed.

(** X25 The snapshot after [reset()]: with [num_tapes >= 0], [reset()]
    without inputs followed by [get_configuration()] reports the start
    state, step 0 and [num_tapes] tapes each shown as the blank in
    brackets. *)
Theorem X25_snapshot_after_reset m :
  0 ≤ num_tapes m →
  ∃ m', reset None m = (inr tt, m')
    ∧ get_configuration m'
      = (inr (BuildConfiguration (start_state m)
                (replicate (Z.to_nat (num_tapes m))
                   (String.append "[" (String.append (blank m) "]")))
                0), m').
Proof.
  intros Hk. eexists. split.
  - apply reset_length_ok. by apply empty_inputs_length.
  - unfold get_configuration, bind, self, ret, raise.
    cbn [tapes current_state step_count inputs_or_empty].
    rewrite fmap_replicate.
    change (Tape.init (blank m) "") with (Tape.Build (blank m) ∅ 0).
    by rewrite Tape_strs_blank.
Qed.

(** ** Stored blanks cannot be observed by the machine *)

Lemma content_write (tp : Tape.t) (sym : Symbol) (pos : Z) :
  Tape.content (Tape.write tp sym) pos
    = if bool_decide (pos = Tape.head tp) then sym else Tape.content tp pos.
Proof.
  unfold Tape.content, Tape.write.
  destruct (bool_decide (sym = Tape.blank tp)
            && bool_decide (is_Some (Tape.cells tp !! Tape.head tp))) eqn:E;
    simpl; destruct (decide (pos = Tape.head tp)) as [->|Hpos].
  - rewrite bool_decide_eq_true_2, lookup_delete_eq by done. simpl.
    by apply andb_true_iff in E as [->%bool_decide_eq_true _].
  - by rewrite bool_decide_eq_false_2, lookup_delete_ne.
  - by rewrite bool_decide_eq_true_2, lookup_insert_eq.
  - by rewrite bool_decide_eq_false_2, lookup_insert_ne.
Qed.

Lemma equivalent_refl (tp : Tape.t) : Tape.equivalent tp tp.
Proof. by repeat split. Qed.

Lemma equivalent_read (tp1 tp2 : Tape.t) :
  Tape.equivalent tp1 tp2 → Tape.read tp1 = Tape.read tp2.
Proof.
  intros (Hb & Hh & Hc). specialize (Hc (Tape.head tp1)).
  unfold Tape.read. unfold Tape.content in Hc. by rewrite <- Hh.
Qed.

Lemma equivalent_write (tp1 tp2 : Tape.t) (sym : Symbol) :
  Tape.equivalent tp1 tp2 →
  Tape.equivalent (Tape.write tp1 sym) (Tape.write tp2 sym).
Proof.
  intros (Hb & Hh & Hc). split; [by rewrite !write_blank|].
  split; [by rewrite !write_head|].
  intros pos. by rewrite !content_write, Hh, Hc.
Qed.

Lemma equivalent_move (tp1 tp2 : Tape.t) (d : Z) :
  Tape.equivalent tp1 tp2 →
  Tape.equivalent (Tape.move tp1 d) (Tape.move tp2 d).
Proof.
  intros (Hb & Hh & Hc). split; [done|]. split; [simpl; by rewrite Hh|].
  intros pos. apply Hc.
Qed.

(** Writing the blank where [read] already returns it gives a tape that
    reads as before (even when a blank is stored that was not). *)
Lemma stored_blank_equivalent (tp : Tape.t) :
  Tape.read tp = Tape.blank tp →
  Tape.equivalent (Tape.write tp (Tape.blank tp)) tp.
Proof.
  intros Hread. split; [apply write_blank|]. split; [apply write_head|].
  intros pos. rewrite content_write. case_bool_decide as Hpos; [|done].
  subst pos. by rewrite <- Hread.
Qed.

Lemma equivalent_reads ts1 ts2 :
  Forall2 Tape.equivalent ts1 ts2 → Tape.read <$> ts1 = Tape.read <$> ts2.
Proof.
  induction 1 as [|tp1 tp2 ts1 ts2 Htp _ IH]; [done|].
  rewrite !fmap_cons, IH. f_equal. by apply equivalent_read.
Qed.

Lemma equivalent_write_zip ts1 ts2 (syms : list Symbol) :
  Forall2 Tape.equivalent ts1 ts2 →
  Forall2 Tape.equivalent (write_zip ts1 syms) (write_zip ts2 syms).
Proof.
  intros Hts. revert syms.
  induction Hts as [|tp1 tp2 ts1 ts2 Htp Hts IH]; intros [|sym syms]; simpl;
    try by constructor.
  constructor; [by apply equivalent_write | apply IH].
Qed.

Lemma equivalent_move_zip ts1 ts2 (moves : list Z) :
  Forall2 Tape.equivalent ts1 ts2 →
  Forall2 Tape.equivalent (move_zip ts1 moves) (move_zip ts2 moves).
Proof.
  intros Hts. revert moves.
  induction Hts as [|tp1 tp2 ts1 ts2 Htp Hts IH]; intros [|mv moves]; simpl;
    try by constructor.
  constructor; [by apply equivalent_move | apply IH].
Qed.

Lemma same_content_key m1 m2 : same_content m1 m2 → key_of m1 = key_of m2.
Proof.
  intros (_ & Ht & Hq & _). unfold key_of.
  by rewrite Hq, (equivalent_reads _ _ Ht).
Qed.

Lemma step_same_content m1 m2 :
  same_content m1 m2 →
  (step m1).1 = (step m2).1 ∧ same_content (step m1).2 (step m2).2.
Proof.
  intros Hsame. pose proof (same_content_key _ _ Hsame) as Hkey.
  destruct Hsame as (Hprog & Ht & Hq & Hn).
  pose proof Hprog as (Hb & Htr & Hs & Ha & Hr & Hk).
  destruct (transitions m1 !! key_of m1) as [[[q syms] moves]|] eqn:Hk1.
  - assert (transitions m2 !! key_of m2 = Some (q, syms, moves)) as Hk2
      by (by rewrite <- Htr, <- Hkey).
    rewrite (step_applied _ _ _ _ Hk1), (step_applied _ _ _ _ Hk2). simpl.
    split.
    + unfold status_after. by rewrite Ha, Hr.
    + split; [done|]. split; [|split; [done | by rewrite Hn]].
      simpl. by apply equivalent_move_zip, equivalent_write_zip.
  - assert (transitions m2 !! key_of m2 = None) as Hk2
      by (by rewrite <- Htr, <- Hkey).
    rewrite (step_stuck _ Hk1), (step_stuck _ Hk2). simpl. split.
    + unfold status_stuck. by rewrite Ha, Hr, Hq.
    + by repeat split.
Qed.

Lemma run_loop_same_content max_steps fuel : ∀ status m1 m2 res m1',
  same_content m1 m2 →
  run_loop fuel max_steps status m1 = Some (res, m1') →
  ∃ m2', run_loop fuel max_steps status m2 = Some (res, m2')
         ∧ same_content m1' m2'.
Proof.
  induction fuel as [|fuel IH]; intros status m1 m2 res m1' Hsame Hrun;
    [done|].
  pose proof Hsame as (_ & _ & _ & Hn).
  simpl in Hrun |- *. rewrite <- Hn.
  destruct (bool_decide (status = RUNNING)
            && (step_count m1 <? max_steps)).
  - destruct (step_same_content _ _ Hsame) as [Hres Hnext].
    destruct (step_returns m1) as (st1 & m1a & Hs1).
    destruct (step_returns m2) as (st2 & m2a & Hs2).
    rewrite Hs1, Hs2 in Hres, Hnext. rewrite Hs1 in Hrun. rewrite Hs2.
    simpl in Hres, Hnext. injection Hres as <-. by eapply IH.
  - injection Hrun as <- <-. by exists m2.
Qed.

(** X26 The machine cannot see a stored blank: two machines with the same
    program, state and step counter whose tapes read alike at every
    position (one may store blanks the other does not) finish [run] with
    the same status, the same [step_count], and tapes that again read
    alike. *)
Theorem X26_run_depends_on_tape_content_only (max_steps : Z) m1 m2 :
  same_content m1 m2 →
  ∃ status m1' m2',
    run max_steps m1 = Some (inr status, m1')
    ∧ run max_steps m2 = Some (inr status, m2')
    ∧ same_content m1' m2'.
Proof.
  intros Hsame.
  destruct (run_returns max_steps m1) as (st & m1' & Hrun).
  pose proof Hsame as (_ & _ & _ & Hn).
  unfold run in *. rewrite <- Hn.
  destruct (run_loop_same_content _ _ _ _ _ _ _ Hsame Hrun) as (m2' & H2 & Hs).
  by exists st, m1', m2'.
Qed.

End MachineExtras.

(** * The extra properties on concrete tapes and machines *)

Section ExtraScenarios.

Local Open Scope string_scope.

Lemma X2_witness :
  Tape.cells (Tape.write (Tape.init "_" "ab") "c") !! 1
    = Tape.cells (Tape.init "_" "ab") !! 1.
Proof. apply X2_write_leaves_other_cells. simpl. lia. Defined.

Lemma X4_witness : Tape.read (Tape.move (Tape.init "_" "ab") (-3)) = "_".
Proof. apply X4_reading_outside_the_input_is_blank. left. lia. Defined.

Lemma X5_witness :
  Tape.sparse
    (Tape.apply_ops (Tape.init "_" "ab")
       [Tape.Write "c"; Tape.Move 1; Tape.Move 1; Tape.Write "d"]).
Proof.
  apply X5_non_blank_writes_keep_sparsity.
  - apply (bool_decide_unpack
             (map_Forall (λ _ sym, sym ≠ "_")
                (Tape.cells (Tape.init "_" "ab")))).
    vm_compute. exact I.
  - repeat constructor; discriminate.
Defined.

Lemma X10_witness :
  ∃ lo hi,
    Tape_str (Tape.move (Tape.init "_" "ab") 3)
      = inr (String.concat ""
               (Tape_str_cell (Tape.move (Tape.init "_" "ab") 3)
                  <$> seqZ lo (hi + 1 - lo)))
    ∧ Tape_window (Tape.move (Tape.init "_" "ab") 3) lo hi.
Proof.
  apply X10_str_spans_least_window.
  apply (bool_decide_unpack _). vm_compute. exact I.
Defined.

Lemma X11_witness :
  ∃ v lo hi,
    Tape_str (Tape.move (Tape.init "_" "ab") 3) = inr v
    ∧ Tape_window (Tape.move (Tape.init "_" "ab") 3) lo hi
    ∧ Z.of_nat (String.length v) = 3 * (hi - lo + 1).
Proof.
  apply X11_str_is_three_characters_per_cell.
  - apply (bool_decide_unpack _). vm_compute. exact I.
  - reflexivity.
  - apply (bool_decide_unpack
             (map_Forall (λ _ sym, String.length sym = 1%nat)
                (Tape.cells (Tape.move (Tape.init "_" "ab") 3)))).
    vm_compute. exact I.
Defined.

Lemma X14_witness :
  Z.of_nat (length (tapes unary_fresh)) = num_tapes unary_fresh
  ∧ ∃ status m',
      run 10 unary_fresh = Some (inr status, m')
      ∧ Z.of_nat (length (tapes m')) = num_tapes m'.
Proof.
  apply (X14_run_keeps_num_tapes {["q0"]} {["1"]} {["1"; "_"]} "_"
           (transitions unary_fresh) "q0" {["q0"]} None 1 (Some ["111"])
           unary_fresh unary_fresh 10).
  left. vm_compute. reflexivity.
Defined.

Lemma X15_witness : run 5 used_machine = Some (inr RUNNING, used_machine).
Proof. apply X15_run_with_spent_budget. simpl. lia. Defined.

Lemma X16_witness :
  step_count (steps 5 loop_machine) = Z.max (step_count loop_machine) 5.
Proof.
  apply (X16_running_means_budget_spent 5 loop_machine (steps 5 loop_machine)).
  vm_compute. reflexivity.
Defined.

Lemma X17_witness :
  current_state (steps 1 unary_fresh) ∈ accept_states (steps 1 unary_fresh).
Proof.
  apply (X17_run_classification_is_sound 10 unary_fresh ACCEPT
           (steps 1 unary_fresh)).
  vm_compute. reflexivity.
Defined.

Lemma X18_witness : run 5 (steps 3 loop_machine) = run 5 loop_machine.
Proof.
  apply (X18_run_can_be_resumed 3 5 loop_machine (steps 3 loop_machine)).
  - vm_compute. reflexivity.
  - lia.
Defined.

Lemma X19_witness :
  halt_machine = halt_machine
  ∧ step halt_machine = (inr HALT, halt_machine)
  ∧ run 5 halt_machine = Some (inr HALT, halt_machine).
Proof.
  apply (X19_halt_is_stable 5 halt_machine halt_machine).
  - vm_compute. reflexivity.
  - simpl. lia.
Defined.

Lemma X20_witness :
  ∃ status m',
    run 5 loop_machine = Some (inr status, m')
    ∧ Forall (λ tp, (- step_count m' ≤ Tape.head tp ≤ step_count m')%Z)
        (tapes m').
Proof.
  apply (X20_heads_stay_within_step_count {["q0"; "qa"]} ∅ {["_"]} "_"
           loop_transitions "q0" {["qa"]} None 1 None loop_machine 5).
  - vm_compute. reflexivity.
  - apply (bool_decide_unpack
             (map_Forall (λ _ value, Forall (λ mv, (-1 ≤ mv ≤ 1)%Z) value.2)
                (transitions loop_machine))).
    vm_compute. exact I.
Defined.

Lemma X22_witness :
  ∃ m0, init {["q0"]} ∅ {["_"]} "_" (transitions halt_machine) "q0" ∅ None 2
          None = inr m0
        ∧ tapes m0 = [Tape.Build "_" ∅ 0; Tape.Build "_" ∅ 0].
Proof.
  destruct (X22_no_inputs_means_blank_tapes {["q0"]} ∅ {["_"]} "_"
              (transitions halt_machine) "q0" ∅ None 2
              (BuildMachine {["q0"]} ∅ {["_"]} "_" (transitions halt_machine)
                 "q0" ∅ ∅ 2 [Tape.init "_" "a"; Tape.init "_" "b"] "q0" 4))
    as [(m0 & Hinit & Htapes & _) _]; [lia | reflexivity |].
  exists m0. split; assumption.
Defined.

Lemma X23_witness :
  init {["q0"]} ∅ {["_"]} "_" (transitions halt_machine) "q0" ∅ None (-1)
    (Some []) = inl ValueError.
Proof. apply X23_negative_num_tapes_always_raises. lia. Defined.

Lemma X25_witness :
  ∃ m', reset None used_machine = (inr tt, m')
    ∧ get_configuration m'
      = (inr (BuildConfiguration "q0" ["[_]"] 0), m').
Proof.
  apply (X25_snapshot_after_reset used_machine). simpl. lia.
Defined.

Lemma X26_witness :
  ∃ status m1' m2',
    run 5 (set_tapes [Tape.write (Tape.init "_" "") "_"] loop_machine)
      = Some (inr status, m1')
    ∧ run 5 loop_machine = Some (inr status, m2')
    ∧ same_content m1' m2'.
Proof.
  apply X26_run_depends_on_tape_content_only.
  split; [repeat split|]. split; [|split; reflexivity].
  constructor; [|constructor].
  apply (stored_blank_equivalent (Tape.init "_" "")). reflexivity.
Defined.

End ExtraScenarios.
